(** * SquadCast video adapter of cal.com: a shallow embedding

    Sources embedded here:
    - [packages/app-store/squadcast/lib/VideoApiAdapter.ts]
      ([getShowId], [getApiKey], [createQueryString], [getQueryString] with
      its inner [createStageAndViewers], and the adapter's [createMeeting],
      [deleteMeeting], [updateMeeting], [getAvailability]);
    - [packages/app-store/squadcast/api/add.ts] (the install [handler]);
    - [packages/app-store/squadcast/_metadata.ts] (the [metadata] constants).

    JavaScript values are modelled as far as the code inspects them:
    exceptions and rejected promises are the [Throw] case of [Result],
    network, database and HTTP-response effects are recorded in a trace. *)

From stdpp Require Import base option list strings gmap.
From Stdlib Require Import Ascii ZArith Lia.

Set Warnings "-register-all".
Local Open Scope Z_scope.

(** ** Exceptions and results *)

Inductive Error :=
| TypeError          (* property access or call on undefined, spread of a non-iterable *)
| ZodError           (* a zod schema rejected the value *)
| RangeError         (* Intl: unknown time zone *)
| SyntaxError        (* response body is not JSON *)
| FetchError         (* the fetch promise rejected *)
| PlainError (msg : string) (* [new Error(msg)] *)
| ExternalError (msg : string). (* thrown by a collaborator outside this package *)

Inductive Result (A : Type) :=
| Ok (a : A)
| Throw (e : Error).
Arguments Ok {A} a.
Arguments Throw {A} e.

#[global] Instance Result_ret : MRet Result := fun _ a => Ok a.
#[global] Instance Result_bind : MBind Result := fun _ _ f m =>
  match m with
  | Ok a => f a
  | Throw e => Throw e
  end.

(** ** JSON values and the zod schemas the code uses *)

Inductive JSON :=
| JNull
| JBool (b : bool)
| JNum (n : Z)
| JStr (s : string)
| JArr (items : list JSON)
| JObj (fields : list (string * JSON)).

(** Own-property lookup of a parsed object (property names are distinct in a
    parsed object; the first binding is read). *)
Fixpoint jlookup (k : string) (fields : list (string * JSON)) : option JSON :=
  match fields with
  | [] => None
  | (k', v) :: rest => if String.eqb k k' then Some v else jlookup k rest
  end.

(** [obj.hasOwnProperty(k)] on a value; on [undefined] the call is a TypeError
    and is handled by the caller. *)
Definition hasOwnProperty (v : JSON) (k : string) : bool :=
  match v with
  | JObj fields => bool_decide (is_Some (jlookup k fields))
  | _ => false
  end.

Inductive Schema :=
| ZString
| ZObject (shape : list (string * Schema))
| ZOr (a b : Schema)
| ZArray (elem : Schema).

(** [schema.parse(v)].  [z.object] is in zod's default mode: unknown keys are
    stripped from the output.  [a.or(b)] returns the output of the first
    option that accepts the value. *)
Fixpoint zparse (s : Schema) (v : JSON) : option JSON :=
  match s with
  | ZString => match v with JStr _ => Some v | _ => None end
  | ZObject shape =>
      match v with
      | JObj fields =>
          let fix go (sh : list (string * Schema)) : option (list (string * JSON)) :=
            match sh with
            | [] => Some []
            | (k, sk) :: sh' =>
                match jlookup k fields with
                | Some vk =>
                    match zparse sk vk, go sh' with
                    | Some ok, Some rest => Some ((k, ok) :: rest)
                    | _, _ => None
                    end
                | None => None
                end
            end in
          JObj <$> go shape
      | _ => None
      end
  | ZOr a b =>
      match zparse a v with
      | Some o => Some o
      | None => zparse b v
      end
  | ZArray elem =>
      match v with
      | JArr items => JArr <$> mapM (zparse elem) items
      | _ => None
      end
  end.

Definition parse (s : Schema) (v : JSON) : Result JSON :=
  match zparse s v with
  | Some o => Ok o
  | None => Throw ZodError
  end.

(** Reading a string field of an object that a schema has already accepted. *)
Definition field_string (o : JSON) (k : string) : Result string :=
  match o with
  | JObj fields =>
      match jlookup k fields with
      | Some (JStr s) => Ok s
      | _ => Throw TypeError
      end
  | _ => Throw TypeError
  end.

(** JavaScript truthiness of a JSON value. *)
Definition truthy (v : JSON) : bool :=
  match v with
  | JNull => false
  | JBool b => b
  | JNum n => negb (n =? 0)
  | JStr s => negb (String.eqb s "")
  | JArr _ | JObj _ => true
  end.

(** ** The calendar event (the fields the adapter reads) *)

Record Person := {
  email : string;
  timeZone : string;
  id : option Z;
}.

Record Team := { members : list Person }.

(** One entry of [responses].  The code casts [value] to [string[]]; [None]
    stands for a value that is [undefined] or [null]. *)
Record ResponseField := { value : option (list string) }.

Record CalendarEvent := {
  title : string;
  startTime : Z;  (* the instant [new Date(startTime)] denotes, ms since the epoch *)
  endTime : Z;
  organizer : Person;
  attendees : list Person;
  team : option Team;
  responses : option (gmap string ResponseField);
  eventTypeId : option Z;
}.

(** ** The stage/viewer partition: [createStageAndViewers] *)

(** [guests.includes(a)]; a TypeError when [guests] is undefined. *)
Definition includes (guests : option (list string)) (a : string) : Result bool :=
  match guests with
  | Some g => Ok (bool_decide (a ∈ g))
  | None => Throw TypeError
  end.

(** [allAttendees.filter((attendee) => !guests.includes(attendee))]: the
    callback runs once per element, in order. *)
Fixpoint filter_not_guests (guests : option (list string)) (l : list string)
  : Result (list string) :=
  match l with
  | [] => Ok []
  | a :: l' =>
      inc ← includes guests a;
      rest ← filter_not_guests guests l';
      Ok (if (inc : bool) then rest else a :: rest)
  end.

(** [[...guests]]: a TypeError when [guests] is not iterable. *)
Definition spread (guests : option (list string)) : Result (list string) :=
  match guests with
  | Some g => Ok g
  | None => Throw TypeError
  end.

Record Partition := { stage : list string; viewer : list string }.

(** [eventData.responses?.guests.value]: the optional chain yields undefined
    when [responses] is nullish; otherwise [.guests] is read and [.value] of
    it, a TypeError when there is no [guests] entry. *)
Definition read_guests (eventData : CalendarEvent) : Result (option (list string)) :=
  match responses eventData with
  | None => Ok None
  | Some r =>
      match r !! "guests" with
      | Some f => Ok (value f)
      | None => Throw TypeError
      end
  end.

Definition everyone_of (organizer : string) (attendee : list string)
    (team : option (list string)) : list string :=
  match team with
  | Some t => organizer :: attendee ++ t
  | None => organizer :: attendee
  end.

Definition createStageAndViewers (eventData : CalendarEvent) : Result Partition :=
  guests ← read_guests eventData;
  let allAttendees := email <$> attendees eventData in
  attendee ← filter_not_guests guests allAttendees;
  let organizer := email (organizer eventData) in
  let team := (fun t => email <$> members t) <$> team eventData in
  let everyone := everyone_of organizer attendee team in
  if bool_decide (length everyone ≤ 10)%nat then
    v ← spread guests;
    Ok {| stage := everyone; viewer := v |}
  else
    let stage := take 10 everyone in
    let viewer := drop 10 everyone in
    g ← spread guests;
    Ok {| stage := stage; viewer := viewer ++ g |}.

(** ** Rendering of times: [toLocaleTimeString("en-US", {hour: "2-digit",
    minute: "2-digit", hour12: true, timeZone: tz})] *)

Definition digit (n : Z) : ascii := ascii_of_nat (48 + Z.to_nat n).

Definition two_digits (n : Z) : string :=
  String (digit (n / 10)) (String (digit (n mod 10)) "").

(** Minute of the day on the wall clock of a zone that is [off] minutes east
    of UTC at the instant [t] (ms since the epoch). *)
Definition minute_of_day (off t : Z) : Z := (t / 60000 + off) mod 1440.

(** The 12-hour clock text of a minute of the day, as [hh:mm AM]. *)
Definition clock12 (lm : Z) : string :=
  let h := lm / 60 in
  let m := lm mod 60 in
  let h12 := if h mod 12 =? 0 then 12 else h mod 12 in
  two_digits h12 +:+ ":" +:+ two_digits m +:+ " " +:+ (if h <? 12 then "AM" else "PM").

Definition toLocaleTimeString (off t : Z) : string := clock12 (minute_of_day off t).

(** [s.substring(0, 8)] *)
Definition substring_0_8 (s : string) : string := String.substring 0 8 s.

(** Reading a rendered clock text back (used to show that the rendering
    determines the minute of the day). *)
Definition digit_value (c : ascii) : Z := Z.of_nat (nat_of_ascii c) - 48.

Definition read_clock12 (s : string) : option Z :=
  match s with
  | String h1 (String h2 (String _ (String m1 (String m2 (String _ (String ap _)))))) =>
      let h12 := 10 * digit_value h1 + digit_value h2 in
      let m := 10 * digit_value m1 + digit_value m2 in
      let h := h12 mod 12 + (if Ascii.eqb ap "P" then 12 else 0) in
      Some (60 * h + m)
  | _ => None
  end.

(** ** Form encoding: [createQueryString] *)

Definition unreserved (c : ascii) : bool :=
  let n := Z.of_nat (nat_of_ascii c) in
  ((65 <=? n) && (n <=? 90)) || ((97 <=? n) && (n <=? 122)) || ((48 <=? n) && (n <=? 57))
  || bool_decide (c ∈ ["-"; "_"; "."; "!"; "~"; "*"; "'"; "("; ")"]%char).

Definition hex_digit (n : Z) : ascii :=
  if n <? 10 then ascii_of_nat (48 + Z.to_nat n) else ascii_of_nat (55 + Z.to_nat n).

(** [encodeURIComponent] on a string held as its UTF-8 bytes: every byte
    outside the unreserved set becomes [%XX]. *)
Fixpoint encodeURIComponent (s : string) : string :=
  match s with
  | EmptyString => EmptyString
  | String c s' =>
      if unreserved c then String c (encodeURIComponent s')
      else
        let n := Z.of_nat (nat_of_ascii c) in
        String "%" (String (hex_digit (n / 16)) (String (hex_digit (n mod 16))
          (encodeURIComponent s')))
  end.

Inductive ParamValue :=
| PStr (s : string)
| PArr (l : list string).

Definition join (sep : string) (l : list string) : string := String.concat sep l.

Definition createQueryString (params : list (string * ParamValue)) : string :=
  join "&"
    ((fun '(key, value) =>
        match value with
        | PArr l =>
            join "&" ((fun val => encodeURIComponent key +:+ "=" +:+ encodeURIComponent val) <$> l)
        | PStr v => encodeURIComponent key +:+ "=" +:+ encodeURIComponent v
        end) <$> params).

(** ** The install request (the fields [add.ts] reads) *)

(** [teamId] of the form after [z.coerce.number()]: absent, a number, or a
    value whose coercion is NaN. *)
Inductive TeamIdField :=
| TeamIdAbsent
| TeamIdNumber (n : Z)
| TeamIdNaN.

(** [apiKey] is [None] when the body has no string under that name. *)
Record InstallBody := {
  body_apiKey : option string;
  body_teamId : TeamIdField;
}.

Record ApiRequest := {
  req_method : string;
  query_teamId : option string;
  req_body : InstallBody;
  session_user_id : option Z;
}.

(** ** Collaborators outside the package *)

Record AppData := { showID : option string }.

Record CredentialPayload := { key : JSON }.

(** What the code imports and calls but does not define: the crypto helpers
    of [@calcom/lib/crypto], the process environment, the event-type lookup,
    the IANA time-zone data behind [Intl] and dayjs, the session check and the
    installed-app path helper. *)
Record Externals := {
  symmetricDecrypt : string → string → Result string;
  symmetricEncrypt : string → string → Result string;
  CALENDSO_ENCRYPTION_KEY : option string;
  EventType : Type;
  getEventTypeById : Z → Z → Result EventType;
  getEventTypeAppData : EventType → string → option AppData;
  (* offset east of UTC, in minutes, of a named zone at an instant;
     [None] for a name [Intl] does not know *)
  tzOffset : string → Z → option Z;
  tzOffset_range : ∀ tz t off, tzOffset tz t = Some off → -1440 < off < 1440;
  dayjs_format_date : string → Z → Result string;
  getInstalledAppPath : string → string → string;
  checkSession : ApiRequest → Result unit;
}.

(** ["UTC"] is always known and always at offset 0. *)
Definition zone_offset (X : Externals) (tz : string) (t : Z) : option Z :=
  if String.eqb tz "UTC" then Some 0 else tzOffset X tz t.

(** [_metadata.ts] *)
Module metadata.
Definition name := "SquadCast".
Definition type := "squadcast_video".
Definition variant := "conferencing".
Definition slug := "squadcast".
End metadata.

(** ** [getShowId], [getApiKey], [getQueryString] *)

Definition falsy_number (n : option Z) : bool :=
  match n with
  | None => true
  | Some v => v =? 0
  end.

Definition getShowId (X : Externals) (eventData : CalendarEvent) : Result (option string) :=
  match eventTypeId eventData, id (organizer eventData) with
  | Some etid, Some uid =>
      if falsy_number (Some etid) || falsy_number (Some uid) then Ok None
      else
        eventType ← getEventTypeById X etid uid;
        match getEventTypeAppData X eventType "squadcast" with
        | None => Ok None
        | Some appData => Ok (showID appData)
        end
  | _, _ => Ok None
  end.

(** [undefined] is the [None] result. *)
Definition getApiKey (X : Externals) (credential : CredentialPayload) : Result (option string) :=
  if negb (truthy (key credential)) then Ok None
  else
    o ← parse (ZObject [("apiKey", ZString)]) (key credential);
    apiKey ← field_string o "apiKey";
    k ← symmetricDecrypt X apiKey (default "" (CALENDSO_ENCRYPTION_KEY X));
    Ok (Some k).

(** A value inside a template literal: [undefined] prints as its name. *)
Definition template (v : option string) : string :=
  match v with
  | Some s => s
  | None => "undefined"
  end.

Inductive Action := create | update.

Definition render_time (X : Externals) (tz : string) (t : Z) : Result string :=
  match zone_offset X tz t with
  | Some off => Ok (substring_0_8 (toLocaleTimeString off t))
  | None => Throw RangeError
  end.

Definition action_tz (eventData : CalendarEvent) (action : Action) : string :=
  match action with
  | create => timeZone (organizer eventData)
  | update => "UTC"
  end.

(** The [data] object of [getQueryString], as the ordered list of its entries. *)
Definition getQueryData (X : Externals) (eventData : CalendarEvent) (action : Action)
  : Result (list (string * ParamValue)) :=
  let tz := action_tz eventData action in
  p ← createStageAndViewers eventData;
  date ← dayjs_format_date X tz (startTime eventData);
  st ← render_time X tz (startTime eventData);
  et ← render_time X tz (endTime eventData);
  let data :=
    [ ("sessionTitle", PStr (title eventData));
      ("date", PStr date);
      ("startTime", PStr st);
      ("endTime", PStr et);
      ("timeZone", PStr (timeZone (organizer eventData)));
      ("stage", PArr (stage p));
      ("viewer", PArr (viewer p)) ] in
  showId ← getShowId X eventData;
  match showId with
  | Some s => if String.eqb s "" then Ok data else Ok (data ++ [("showID", PStr s)])
  | None => Ok data
  end.

Definition getQueryString (X : Externals) (eventData : CalendarEvent) (action : Action)
  : Result string :=
  data ← getQueryData X eventData action;
  Ok (createQueryString data).

(** ** Effects: provider calls, the credential store, the HTTP reply *)

Inductive Method := GET | POST | PUT | DELETE.

Record Request := {
  method : Method;
  url : string;
  authorization : string;
  content_type : option string;
  accept : option string;
  body : option string;
}.

(** A provider response: its status and, when the body is JSON, its value. *)
Record Response := {
  status : Z;
  payload : option JSON;
}.

(** [response.ok] *)
Definition ok (r : Response) : bool := (200 <=? status r) && (status r <=? 299).

Inductive Reply :=
| Resolved (r : Response)
| Rejected.

Record User := { user_email : string; user_id : Z }.

Record CredentialData := {
  cd_type : string;
  cd_key_apiKey : string;
  cd_userId : option Z;
  cd_teamId : option Z;
  cd_appId : string;
  cd_invalid : bool;
}.

Inductive Event :=
| EFetch (r : Request)
| ECredentialCreate (data : CredentialData)
| ERespond (code : Z) (json : JSON).

(** The outside world an operation runs against. *)
Record World := {
  fetch_reply : Request → Reply;
  find_user : option Z → option User;
  credential_create_succeeds : CredentialData → bool;
}.

(** An asynchronous computation: it extends the trace of effects and either
    resolves with a value or rejects. *)
Definition IO (A : Type) : Type := World → list Event → list Event * Result A.

#[global] Instance IO_ret : MRet IO := fun _ a _ tr => (tr, Ok a).
#[global] Instance IO_bind : MBind IO := fun _ _ f m w tr =>
  match m w tr with
  | (tr', Ok a) => f a w tr'
  | (tr', Throw e) => (tr', Throw e)
  end.

Definition lift {A} (r : Result A) : IO A := fun _ tr => (tr, r).

(** [p.catch(h)] *)
Definition catch {A} (m : IO A) (h : Error → IO A) : IO A := fun w tr =>
  match m w tr with
  | (tr', Ok a) => (tr', Ok a)
  | (tr', Throw e) => h e w tr'
  end.

Definition run {A} (m : IO A) (w : World) : list Event * Result A := m w [].

Definition fetch (req : Request) : IO Response := fun w tr =>
  (tr ++ [EFetch req],
   match fetch_reply w req with
   | Resolved r => Ok r
   | Rejected => Throw FetchError
   end).

(** [response.json()] *)
Definition json (r : Response) : Result JSON :=
  match payload r with
  | Some j => Ok j
  | None => Throw SyntaxError
  end.

(** Whether an answer has already been sent. *)
Definition answered (tr : list Event) : bool :=
  existsb (λ e, match e with ERespond _ _ => true | _ => false end) tr.

(** [res.status(code).json(value)].  The first answer of a request is sent
    and recorded.  Once an answer has been sent the headers are out:
    [status] still sets the code, but [json] fails to set its header and
    throws (Node's ERR_HTTP_HEADERS_SENT), and nothing more is sent. *)
Definition respond (code : Z) (j : JSON) : IO unit := fun _ tr =>
  if answered tr then (tr, Throw (ExternalError "ERR_HTTP_HEADERS_SENT"))
  else (tr ++ [ERespond code j], Ok tt).

(** ** The adapter: [SquadcastVideoApiAdapter(credential)] *)

Module VideoCallData.
Record t := { type : string; id : string; password : string; url : string }.
End VideoCallData.

Definition empty : VideoCallData.t :=
  {| VideoCallData.type := "";
     VideoCallData.id := "";
     VideoCallData.password := "";
     VideoCallData.url := "" |}.

Record PartialReference := {
  meetingId : option string;
  meetingPassword : string;
  meetingUrl : string;
}.

Definition form_urlencoded := "application/x-www-form-urlencoded; charset=utf-8".

Definition getAvailability : IO (list unit) := mret [].

Definition create_request (apiKey : option string) (form : string) : Request :=
  {| method := POST;
     url := "https://api.squadcast.fm/v2/sessions";
     authorization := "Bearer " +:+ template apiKey;
     content_type := Some form_urlencoded;
     accept := None;
     body := Some form |}.

(** The part of [createMeeting] after the status test: the body is read,
    validated and turned into the descriptor. *)
Definition session_descriptor (response : Response) : Result VideoCallData.t :=
  newSession ← json response;
  o ← parse (ZObject [("sessionID", ZString); ("showID", ZString)]) newSession;
  sessionID ← field_string o "sessionID";
  showID ← field_string o "showID";
  Ok {| VideoCallData.id := sessionID;
        VideoCallData.password := "";
        VideoCallData.url :=
          "https://app.squadcast.fm/studio/" +:+ showID +:+ "/session/" +:+ sessionID;
        VideoCallData.type := metadata.type |}.

Definition createMeeting (X : Externals) (credential : CredentialPayload)
    (eventData : CalendarEvent) : IO VideoCallData.t :=
  apiKey ← lift (getApiKey X credential);
  form ← lift (getQueryString X eventData create);
  response ← fetch (create_request apiKey form);
  if negb (status response =? 200) then mret empty
  else lift (session_descriptor response).

Definition recordings_request (apiKey : option string) (uid : string) : Request :=
  {| method := GET;
     url := "https://api.squadcast.fm/v2/sessions/" +:+ uid +:+ "/recordings";
     authorization := "Bearer " +:+ template apiKey;
     content_type := None;
     accept := Some "application/json";
     body := None |}.

Definition delete_request (apiKey : option string) (uid : string) : Request :=
  {| method := DELETE;
     url := "https://api.squadcast.fm/v2/sessions/" +:+ uid;
     authorization := "Bearer " +:+ template apiKey;
     content_type := None;
     accept := Some "application/json";
     body := None |}.

Definition recordings_schema : Schema :=
  ZArray (ZOr (ZObject [("status", ZString)]) (ZObject [("recordingID", ZString)])).

(** [recordings[0].hasOwnProperty("recordingID")]: index 0 of an empty array
    is undefined, and the method call on it is a TypeError. *)
Definition first_has_recordingID (recordings : JSON) : Result bool :=
  match recordings with
  | JArr (first :: _) => Ok (hasOwnProperty first "recordingID")
  | _ => Throw TypeError
  end.

(** The two [.then] callbacks after the recordings request: the value of
    [canWeDelete]. *)
Definition canWeDelete (res : Response) : Result bool :=
  data ← json res;
  recordings ← parse recordings_schema data;
  hasRecording ← first_has_recordingID recordings;
  if (hasRecording : bool) then Ok false else Ok true.

Definition deleteMeeting (X : Externals) (credential : CredentialPayload)
    (uid : string) : IO unit :=
  apiKey ← lift (getApiKey X credential);
  res ← fetch (recordings_request apiKey uid);
  can ← lift (canWeDelete res);
  if negb can then mret tt
  else
    _ ← fetch (delete_request apiKey uid);
    mret tt.

Definition update_request (apiKey : option string) (meetingId form : string) : Request :=
  {| method := PUT;
     url := "https://api.squadcast.fm/v2/sessions/" +:+ meetingId;
     authorization := "Bearer " +:+ template apiKey;
     content_type := Some form_urlencoded;
     accept := None;
     body := Some form |}.

Definition updateMeeting (X : Externals) (credential : CredentialPayload)
    (bookingRef : PartialReference) (eventData : CalendarEvent) : IO VideoCallData.t :=
  match meetingId bookingRef with
  | None => mret empty
  | Some mid =>
      if String.eqb mid "" then mret empty
      else
        apiKey ← lift (getApiKey X credential);
        form ← lift (getQueryString X eventData update);
        _ ← fetch (update_request apiKey mid form);
        mret {| VideoCallData.id := mid;
                VideoCallData.password := meetingPassword bookingRef;
                VideoCallData.url := meetingUrl bookingRef;
                VideoCallData.type := metadata.type |}
  end.

(** ** The install handler: [api/add.ts] *)

(** [formSchema.parse(req.body)]: [apiKey] must be a string; a [teamId] that
    coerces to NaN is rejected. *)
Definition formSchema_parse (b : InstallBody) : Result (string * option Z) :=
  match body_apiKey b, body_teamId b with
  | Some apiKey, TeamIdAbsent => Ok (apiKey, None)
  | Some apiKey, TeamIdNumber n => Ok (apiKey, Some n)
  | _, _ => Throw ZodError
  end.

Definition probe_request (apiKey : string) : Request :=
  {| method := GET;
     url := "https://api.squadcast.fm/v2/organizations";
     authorization := "Bearer " +:+ apiKey;
     content_type := None;
     accept := None;
     body := None |}.

(** [prisma.user.findFirstOrThrow] *)
Definition findFirstOrThrow (uid : option Z) : IO User := fun w tr =>
  (tr, match find_user w uid with
       | Some u => Ok u
       | None => Throw (ExternalError "NotFoundError")
       end).

(** [prisma.credential.create({ data })] *)
Definition credential_create (data : CredentialData) : IO unit := fun w tr =>
  (tr ++ [ECredentialCreate data],
   if credential_create_succeeds w data then Ok tt
   else Throw (ExternalError "PrismaClientKnownRequestError")).

Definition truthy_string (s : option string) : bool :=
  match s with
  | Some v => negb (String.eqb v "")
  | None => false
  end.

Definition handler (X : Externals) (req : ApiRequest) : IO unit :=
  _ ← lift (checkSession X req);
  if String.eqb (req_method req) "GET" then
    let teamId := query_teamId req in
    respond 200
      (JObj [("url", JStr ("/apps/" +:+ metadata.slug +:+ "/setup" +:+
                           (if truthy_string teamId then "?teamId=" +:+ template teamId
                            else "")))])
  else if String.eqb (req_method req) "POST" then
    '(apiKey, teamId) ← lift (formSchema_parse (req_body req));
    (* the probe: the rejection handler answers 400 and its [return] ends
       the handler of the promise, after which the [await] resumes *)
    _ ← catch
          (response ← fetch (probe_request apiKey);
           if negb (ok response) then lift (Throw (PlainError "Invalid API key"))
           else mret tt)
          (fun _ => respond 400 (JObj [("message", JStr "Invalid API key")]));
    user ← findFirstOrThrow (session_user_id req);
    let secret := default "" (CALENDSO_ENCRYPTION_KEY X) in
    keyUser ← lift (symmetricEncrypt X apiKey secret);
    let dataWithUser :=
      {| cd_type := metadata.type; cd_key_apiKey := keyUser;
         cd_userId := Some (user_id user); cd_teamId := None;
         cd_appId := metadata.slug; cd_invalid := false |} in
    keyTeam ← lift (symmetricEncrypt X apiKey secret);
    let dataWithTeam :=
      {| cd_type := metadata.type; cd_key_apiKey := keyTeam;
         cd_userId := None; cd_teamId := teamId;
         cd_appId := metadata.slug; cd_invalid := false |} in
    let data := if negb (falsy_number teamId) then dataWithTeam else dataWithUser in
    (* try { create } catch { return 500 }: [returned] tells whether the
       catch block has ended the handler *)
    returned ← catch
      (_ ← credential_create data; mret false)
      (fun _ =>
         _ ← respond 500
               (JObj [("message",
                       JStr ("Could not add this " +:+ metadata.name +:+ " account"))]);
         mret true);
    if (returned : bool) then mret tt
    else
      respond 200 (JObj [("url", JStr (getInstalledAppPath X metadata.variant metadata.slug))])
  else mret tt.

(** * Vocabulary and sample data for the statements *)

(** ** Vocabulary of the partition, in the words of the specification *)

(** The attendees' emails that are not guest emails, in attendee order. *)
Definition attendeesExcludingGuests (ev : CalendarEvent) (g : list string) : list string :=
  filter (λ a, a ∉ g) (email <$> attendees ev).

(** The team members' emails; no team, no emails. *)
Definition team_emails (ev : CalendarEvent) : list string :=
  match team ev with
  | Some t => email <$> members t
  | None => []
  end.

(** Organizer, then non-guest attendees, then team members. *)
Definition everyone (ev : CalendarEvent) (g : list string) : list string :=
  email (organizer ev) :: attendeesExcludingGuests ev g ++ team_emails ev.

(** An entry of the [data] object by its name. *)
Fixpoint data_field (k : string) (data : list (string * ParamValue)) : option ParamValue :=
  match data with
  | [] => None
  | (k', v) :: rest => if String.eqb k k' then Some v else data_field k rest
  end.

(** The request events of a trace. *)
Definition requests (tr : list Event) : list Request :=
  omap (λ e, match e with EFetch r => Some r | _ => None end) tr.

(** The credentials a trace stores. *)
Definition stored (tr : list Event) : list CredentialData :=
  omap (λ e, match e with ECredentialCreate d => Some d | _ => None end) tr.

(** C4 as written, as a property of one input and its result. *)
Definition C4_as_stated (ev : CalendarEvent) (g : list string) (p : Partition) : Prop :=
  stage p = take 10 (everyone ev g)
  ∧ length (stage p) = 10%nat
  ∧ head (stage p) = Some (email (organizer ev))
  ∧ viewer p = drop 10 (everyone ev g) ++ g
  ∧ (∀ e, e ∈ stage p → e ∉ viewer p)
  ∧ (∀ e, e ∈ everyone ev g ++ g → e ∈ stage p ++ viewer p).

(** ** Sample data *)

Module Demo.
Definition person (e tz : string) : Person :=
  {| email := e; timeZone := tz; id := Some 7 |}.

Definition guest_responses (g : list string) : option (gmap string ResponseField) :=
  Some {[ "guests" := {| value := Some g |} ]}.

Definition booking (org : Person) (atts g : list string) (tm : option (list string))
    (resp : option (gmap string ResponseField)) : CalendarEvent :=
  {| title := "Interview";
     startTime := 1717252200000;  (* 2024-06-01T14:30:00Z *)
     endTime := 1717255800000;    (* 2024-06-01T15:30:00Z *)
     organizer := org;
     attendees := (λ e, person e "UTC") <$> atts;
     team := (λ t, {| members := (λ e, person e "UTC") <$> t |}) <$> tm;
     responses := resp;
     eventTypeId := Some 3 |}.

Definition host := person "o@x.com" "Asia/Kolkata".

(** Two attendees and one guest. *)
Definition small : CalendarEvent :=
  booking host ["a@x.com"; "b@x.com"; "g@x.com"] ["g@x.com"] None
    (guest_responses ["g@x.com"]).

Definition ten : list string :=
  ["a1@x.com"; "a2@x.com"; "a3@x.com"; "a4@x.com"; "a5@x.com";
   "a6@x.com"; "a7@x.com"; "a8@x.com"; "a9@x.com"; "a10@x.com"].

(** Ten attendees, one guest and a team of one. *)
Definition large : CalendarEvent :=
  booking host (ten ++ ["g@x.com"]) ["g@x.com"] (Some ["t@x.com"])
    (guest_responses ["g@x.com"]).

(** The booker has entered the organizer's address as a guest. *)
Definition organizer_invited : CalendarEvent :=
  booking host ["o@x.com"] ["o@x.com"] None (guest_responses ["o@x.com"]).

(** The same with ten further attendees. *)
Definition organizer_invited_large : CalendarEvent :=
  booking host (ten ++ ["o@x.com"]) ["o@x.com"] None (guest_responses ["o@x.com"]).

(** An event without booking responses. *)
Definition no_responses : CalendarEvent :=
  booking host ["a@x.com"] [] None None.

(** The example of the specification: the organizer is among the attendees. *)
Definition spec_example : CalendarEvent :=
  booking host ["o@x.com"; "a@x.com"; "b@x.com"] ["g@x.com"] None
    (guest_responses ["g@x.com"]).
(** A toy zone table, cipher and event-type store. *)
Definition offset (tz : string) (t : Z) : option Z :=
  if String.eqb tz "Asia/Kolkata" then Some 330
  else if String.eqb tz "America/New_York" then Some (-240)
  else if String.eqb tz "Europe/London" then Some 60
  else None.

Definition decrypt (c secret : string) : Result string :=
  match c with
  | String "e" rest => Ok rest
  | _ => Throw (ExternalError "decrypt")
  end.

Definition X : Externals :=
  {| symmetricDecrypt := decrypt;
     symmetricEncrypt := λ s _, Ok (String "e" s);
     CALENDSO_ENCRYPTION_KEY := Some "0123456789abcdef0123456789abcdef";
     EventType := unit;
     getEventTypeById := λ _ _, Ok tt;
     getEventTypeAppData := λ _ _, Some {| showID := Some "show-1" |};
     tzOffset := offset;
     tzOffset_range := ltac:(intros tz t off; unfold offset;
                             repeat case_match; intros [= <-]; lia);
     dayjs_format_date := λ _ _, Ok "2024-06-01";
     getInstalledAppPath := λ variant slug, "/apps/installed/" +:+ variant +:+ "?hl=" +:+ slug;
     checkSession := λ req,
       match session_user_id req with
       | Some _ => Ok tt
       | None => Throw (ExternalError "Unauthorized")
       end |}.

(** A stored credential, and one whose key is missing. *)
Definition credential : CredentialPayload := {| key := JObj [("apiKey", JStr "esk_live")] |}.
Definition credential_without_key : CredentialPayload := {| key := JNull |}.

(** A world whose provider gives the same reply to every request. *)
Definition world (r : Reply) : World :=
  {| fetch_reply := λ _, r;
     find_user := λ _, Some {| user_email := "o@x.com"; user_id := 7 |};
     credential_create_succeeds := λ _, true |}.

Definition replies (code : Z) (j : JSON) : Reply :=
  Resolved {| status := code; payload := Some j |}.

Definition install_request (apiKey : string) : ApiRequest :=
  {| req_method := "POST";
     query_teamId := None;
     req_body := {| body_apiKey := Some apiKey; body_teamId := TeamIdAbsent |};
     session_user_id := Some 7 |}.
End Demo.

(** * Further code: the shows listing, and readers for the encodings *)

(** ** The shows handler: [api/shows.ts] *)

(** What the shows handler needs beyond [Externals]: the two credential
    queries ([prisma.credential.findFirst], which may fail) and the JSON
    form of a caught error.  The team query is keyed by the [teamId] of the
    query string, which the code hands to [parseInt]. *)
Record ShowsEnv := {
  find_team_credential : string → Result (option CredentialPayload);
  find_user_credential : Z → Result (option CredentialPayload);
  error_json : Error → JSON;
}.

Definition shows_request (apiKey : string) : Request :=
  {| method := GET;
     url := "https://api.squadcast.fm/v2/shows";
     authorization := "Bearer " +:+ apiKey;
     content_type := None;
     accept := Some "application/json";
     body := None |}.

Definition showsSchema : Schema :=
  ZArray (ZObject [("showID", ZString);
                   ("showDetails", ZObject [("showName", ZString)])]).

(** [show.showID] and [show.showDetails.showName] of a validated element. *)
Definition show_entry (show : JSON) : Result (string * string) :=
  showID ← field_string show "showID";
  match show with
  | JObj fields =>
      match jlookup "showDetails" fields with
      | Some details =>
          showName ← field_string details "showName";
          Ok (showID, showName)
      | None => Throw TypeError
      end
  | _ => Throw TypeError
  end.

Fixpoint show_entries (shows : list JSON) : Result (list (string * string)) :=
  match shows with
  | [] => Ok []
  | show :: rest =>
      e ← show_entry show;
      es ← show_entries rest;
      Ok (e :: es)
  end.

(** [map.set(k, v)] on a [Map] held as its entries in insertion order: an
    existing key keeps its place and takes the new value. *)
Fixpoint map_set (m : list (string * string)) (k v : string) : list (string * string) :=
  match m with
  | [] => [(k, v)]
  | (k', v') :: rest =>
      if String.eqb k k' then (k', v) :: rest else (k', v') :: map_set rest k v
  end.

(** [map.get(k)] *)
Fixpoint map_get (m : list (string * string)) (k : string) : option string :=
  match m with
  | [] => None
  | (k', v') :: rest => if String.eqb k k' then Some v' else map_get rest k
  end.

(** The [forEach] that fills [showMap]. *)
Definition showMap_of (entries : list (string * string)) : list (string * string) :=
  foldl (λ m e, map_set m e.1 e.2) [] entries.

(** [{ shows: Array.from(showMap) }] *)
Definition shows_json (m : list (string * string)) : JSON :=
  JObj [("shows", JArr ((λ e, JArr [JStr e.1; JStr e.2]) <$> m))].

(** The body of the [try] block after the credential has been found. *)
Definition list_shows (X : Externals) (cred : CredentialPayload) : IO unit :=
  o ← lift (parse (ZObject [("apiKey", ZString)]) (key cred));
  apiKey ← lift (field_string o "apiKey");
  decryptedApiKey ← lift (symmetricDecrypt X apiKey (default "" (CALENDSO_ENCRYPTION_KEY X)));
  fetched ← fetch (shows_request decryptedApiKey);
  if negb (ok fetched) then
    respond 500 (JObj [("message", JStr "Could not fetch data from Squadcast")])
  else
    data ← lift (json fetched);
    shows ← lift (parse showsSchema data);
    entries ← lift (match shows with
                    | JArr items => show_entries items
                    | _ => Throw TypeError
                    end);
    respond 200 (shows_json (showMap_of entries)).

(** Only the query that is awaited runs: the team one when [teamId] is
    truthy, else the user one. *)
Definition getCred (S : ShowsEnv) (req : ApiRequest) (uid : Z)
  : Result (option CredentialPayload) :=
  if truthy_string (query_teamId req)
  then find_team_credential S (template (query_teamId req))
  else find_user_credential S uid.

Definition shows_handler (X : Externals) (S : ShowsEnv) (req : ApiRequest) : IO unit :=
  catch
    (if negb (String.eqb (req_method req) "GET") then
       lift (Throw (PlainError "Invalid method"))
     else
       match session_user_id req with
       | Some uid =>
           if falsy_number (Some uid) then
             respond 401 (JObj [("message", JStr "You must be logged in to do this")])
           else
             cred ← lift (getCred S req uid);
             match cred with
             | None => respond 403 (JObj [("message", JStr "You must install the app first")])
             | Some c => list_shows X c
             end
       | None => respond 401 (JObj [("message", JStr "You must be logged in to do this")])
       end)
    (fun _err => respond 500 (JObj [("message", error_json S _err)])).

(** The answers of a trace. *)
Definition answers (tr : list Event) : list (Z * JSON) :=
  omap (λ e, match e with ERespond c j => Some (c, j) | _ => None end) tr.

(** The two pure stretches of [list_shows]: from the stored key to the
    bearer token, and from the provider's response to the map of shows. *)
Definition stored_token (X : Externals) (cred : CredentialPayload) : Result string :=
  o ← parse (ZObject [("apiKey", ZString)]) (key cred);
  apiKey ← field_string o "apiKey";
  symmetricDecrypt X apiKey (default "" (CALENDSO_ENCRYPTION_KEY X)).

Definition shows_of_response (fetched : Response) : Result (list (string * string)) :=
  data ← json fetched;
  shows ← parse showsSchema data;
  entries ← match shows with
            | JArr items => show_entries items
            | _ => Throw TypeError
            end;
  Ok (showMap_of entries).

Definition answer (code : Z) (message : JSON) : Event :=
  ERespond code (JObj [("message", message)]).

(** An element of the provider's list that lists the show [e]: an object
    with that string [showID] and, under [showDetails], an object with that
    string [showName]. *)
Definition lists_show (v : JSON) (e : string * string) : Prop :=
  ∃ fields details,
    v = JObj fields
    ∧ jlookup "showID" fields = Some (JStr e.1)
    ∧ jlookup "showDetails" fields = Some (JObj details)
    ∧ jlookup "showName" details = Some (JStr e.2).

(** The record the install handler stores: [data] of [add.ts] for an
    encrypted key, the signed-in user and the parsed [teamId]. *)
Definition install_data (k : string) (user : User) (teamId : option Z) : CredentialData :=
  if negb (falsy_number teamId)
  then {| cd_type := metadata.type; cd_key_apiKey := k;
          cd_userId := None; cd_teamId := teamId;
          cd_appId := metadata.slug; cd_invalid := false |}
  else {| cd_type := metadata.type; cd_key_apiKey := k;
          cd_userId := Some (user_id user); cd_teamId := None;
          cd_appId := metadata.slug; cd_invalid := false |}.

Definition invalid_key_answer : Event :=
  ERespond 400 (JObj [("message", JStr "Invalid API key")]).

Definition store_failure_answer : Event :=
  ERespond 500 (JObj [("message", JStr "Could not add this SquadCast account")]).

Definition installed_answer (X : Externals) : Event :=
  ERespond 200 (JObj [("url", JStr (getInstalledAppPath X "conferencing" "squadcast"))]).

(** Whether the probe accepted the key. *)
Definition probe_accepts (w : World) (apiKey : string) : bool :=
  match fetch_reply w (probe_request apiKey) with
  | Resolved r => ok r
  | Rejected => false
  end.

(** ** Reading the form encoding back *)

Definition hex_value (c : ascii) : option Z :=
  let n := Z.of_nat (nat_of_ascii c) in
  if (48 <=? n) && (n <=? 57) then Some (n - 48)
  else if (65 <=? n) && (n <=? 70) then Some (n - 55)
  else if (97 <=? n) && (n <=? 102) then Some (n - 87)
  else None.

(** The inverse of the percent encoding ([decodeURIComponent] on bytes); a
    [%] that is not followed by two hex digits is kept. *)
Fixpoint percent_decode (s : string) : string :=
  match s with
  | EmptyString => EmptyString
  | String c s' =>
      let keep := String c (percent_decode s') in
      if Ascii.eqb c "%" then
        match s' with
        | String h (String l rest) =>
            match hex_value h, hex_value l with
            | Some a, Some b =>
                String (ascii_of_nat (Z.to_nat (16 * a + b))) (percent_decode rest)
            | _, _ => keep
            end
        | _ => keep
        end
      else keep
  end.

(** A character is safe when the encoding can emit it. *)
Definition safe (c : ascii) : bool := unreserved c || Ascii.eqb c "%".

Fixpoint contains (c : ascii) (s : string) : bool :=
  match s with
  | EmptyString => false
  | String a s' => Ascii.eqb a c || contains c s'
  end.

(** The pieces of [s] between the occurrences of [c]. *)
Fixpoint split_on (c : ascii) (s : string) : list string :=
  match s with
  | EmptyString => [EmptyString]
  | String a s' =>
      if Ascii.eqb a c then EmptyString :: split_on c s'
      else
        match split_on c s' with
        | x :: xs => String a x :: xs
        | [] => [String a EmptyString]
        end
  end.

(** [s] cut at the first [c]. *)
Fixpoint split_first (c : ascii) (s : string) : option (string * string) :=
  match s with
  | EmptyString => None
  | String a s' =>
      if Ascii.eqb a c then Some (EmptyString, s')
      else
        match split_first c s' with
        | Some (x, y) => Some (String a x, y)
        | None => None
        end
  end.

(** A form body read as a provider would: cut at [&], empty pieces dropped,
    each piece cut at its first [=], both sides decoded. *)
Definition read_pair (seg : string) : option (string * string) :=
  if String.eqb seg "" then None
  else
    match split_first "=" seg with
    | Some (k, v) => Some (percent_decode k, percent_decode v)
    | None => Some (percent_decode seg, "")
    end.

Definition parse_query (s : string) : list (string * string) :=
  omap read_pair (split_on "&" s).

(** The first value a form body gives for a name. *)
Definition form_value (k form : string) : option string := map_get (parse_query form) k.

(** The time values a [Date] can hold (8.64e15 ms either side of the
    epoch).  [render_time] follows [toLocaleTimeString] on these; for any
    other value the code prints [Invalid Date], whatever the zone. *)
Definition valid_instant (t : Z) : Prop :=
  -8640000000000000 ≤ t ≤ 8640000000000000.

(** The name/value pairs a [data] object stands for: an array gives one pair
    per element. *)
Definition pairs_of (params : list (string * ParamValue)) : list (string * string) :=
  mjoin ((λ p, match p.2 with
               | PStr v => [(p.1, v)]
               | PArr l => (λ v, (p.1, v)) <$> l
               end) <$> params).

(** The pieces one entry of [data] contributes, and the blank piece an empty
    array leaves. *)
Definition pieces (p : string * ParamValue) : list string :=
  match p.2 with
  | PStr v => [encodeURIComponent p.1 +:+ "=" +:+ encodeURIComponent v]
  | PArr l => (λ val, encodeURIComponent p.1 +:+ "=" +:+ encodeURIComponent val) <$> l
  end.

Definition or_blank (g : list string) : list string :=
  match g with
  | [] => [""]
  | _ => g
  end.

(** ** The recordings list, element by element *)

(** The schema of one element of the recordings list. *)
Definition recording_element : Schema :=
  ZOr (ZObject [("status", ZString)]) (ZObject [("recordingID", ZString)]).

(** An element the recordings schema accepts: an object with a string
    [status] or a string [recordingID]. *)
Definition valid_recording (v : JSON) : Prop :=
  ∃ fields, v = JObj fields
    ∧ ((∃ s, jlookup "status" fields = Some (JStr s))
       ∨ (∃ r, jlookup "recordingID" fields = Some (JStr r))).

(** ** More sample data *)

Module Sample.
Definition shows_env : ShowsEnv :=
  {| find_team_credential := λ t,
       if String.eqb t "42" then Ok (Some Demo.credential) else Ok None;
     find_user_credential := λ u,
       if u =? 7 then Ok (Some Demo.credential) else Ok None;
     error_json := λ _, JObj [] |}.

Definition shows_get (uid : option Z) (teamId : option string) : ApiRequest :=
  {| req_method := "GET";
     query_teamId := teamId;
     req_body := {| body_apiKey := None; body_teamId := TeamIdAbsent |};
     session_user_id := uid |}.

Definition show (i n : string) : JSON :=
  JObj [("showID", JStr i); ("showDetails", JObj [("showName", JStr n)]); ("extra", JNull)].

Definition shows_body : JSON :=
  JArr [show "s1" "Morning"; show "s2" "Evening"; show "s1" "Morning (renamed)"].

Definition team_install (apiKey : string) (n : Z) : ApiRequest :=
  {| req_method := "POST";
     query_teamId := None;
     req_body := {| body_apiKey := Some apiKey; body_teamId := TeamIdNumber n |};
     session_user_id := Some 7 |}.

(** A world whose credential store refuses to create. *)
Definition failing_store (r : Reply) : World :=
  {| fetch_reply := λ _, r;
     find_user := λ _, Some {| user_email := "o@x.com"; user_id := 7 |};
     credential_create_succeeds := λ _, false |}.

(** A provider that keeps the recordings list [recs] and answers every
    other call with the status [code]. *)
Definition recordings_world (recs : JSON) (code : Z) : World :=
  {| fetch_reply := λ req,
       match method req with
       | GET => Demo.replies 200 recs
       | _ => Demo.replies code JNull
       end;
     find_user := λ _, None;
     credential_create_succeeds := λ _, true |}.
End Sample.

(** * Properties *)

Section partition_facts.
Implicit Types (ev : CalendarEvent) (g l : list string).

Lemma filter_not_guests_Some g l :
  filter_not_guests (Some g) l = Ok (filter (λ a, a ∉ g) l).
Proof.
  induction l as [|a l IH]; [done|].
  cbn [filter_not_guests includes]. rewrite IH.
  destruct (decide (a ∈ g)) as [Hin|Hout].
  - rewrite bool_decide_true, filter_cons_False by auto. done.
  - rewrite bool_decide_false, filter_cons_True by auto. done.
Qed.

(** With no guest list, the filter callback and the spread both fail, so the
    partition fails whatever the attendees are. *)
Lemma partition_without_guests ev :
  read_guests ev = Ok None → ∃ e, createStageAndViewers ev = Throw e.
Proof.
  intros Hg. unfold createStageAndViewers. rewrite Hg. cbn.
  destruct (filter_not_guests None (email <$> attendees ev)) as [att|e] eqn:Hf; cbn.
  - destruct (bool_decide _); cbn; eauto.
  - eauto.
Qed.

Lemma everyone_of_everyone ev g :
  everyone_of (email (organizer ev)) (attendeesExcludingGuests ev g)
    ((λ t, email <$> members t) <$> team ev) = everyone ev g.
Proof.
  unfold everyone, everyone_of, team_emails.
  destruct (team ev); cbn; [done|]. by rewrite app_nil_r.
Qed.

(** What the code computes once the guest list is there. *)
Lemma partition_with_guests ev g :
  read_guests ev = Ok (Some g) →
  createStageAndViewers ev =
    Ok (if bool_decide (length (everyone ev g) ≤ 10)%nat
        then {| stage := everyone ev g; viewer := g |}
        else {| stage := take 10 (everyone ev g);
                viewer := drop 10 (everyone ev g) ++ g |}).
Proof.
  intros Hg. unfold createStageAndViewers. rewrite Hg. cbn.
  rewrite filter_not_guests_Some. cbn.
  fold (attendeesExcludingGuests ev g). rewrite everyone_of_everyone.
  by destruct (bool_decide _).
Qed.

Lemma partition_Ok_guests ev p :
  createStageAndViewers ev = Ok p → ∃ g, read_guests ev = Ok (Some g).
Proof.
  intros Hp. destruct (read_guests ev) as [[g|]|e] eqn:Hg.
  - eauto.
  - destruct (partition_without_guests ev Hg) as [e He]. congruence.
  - unfold createStageAndViewers in Hp. rewrite Hg in Hp. discriminate.
Qed.

Lemma read_guests_Some ev g :
  read_guests ev = Ok (Some g) ↔
  ∃ r f, responses ev = Some r ∧ r !! "guests" = Some f ∧ value f = Some g.
Proof.
  unfold read_guests. split.
  - destruct (responses ev) as [r|]; [|discriminate].
    destruct (r !! "guests") as [f|] eqn:Hf; [|discriminate].
    intros [= Hv]. by exists r, f.
  - intros (r & f & -> & -> & ->). done.
Qed.

Lemma read_guests_missing ev :
  responses ev = None ∨ (∃ r, responses ev = Some r ∧ r !! "guests" = None) →
  read_guests ev = Ok None ∨ ∃ e, read_guests ev = Throw e.
Proof.
  unfold read_guests. intros [->|(r & -> & ->)]; eauto.
Qed.

Lemma elem_of_everyone ev g e :
  e ∈ everyone ev g ↔
  e = email (organizer ev)
  ∨ (e ∈ email <$> attendees ev) ∧ e ∉ g
  ∨ e ∈ team_emails ev.
Proof.
  unfold everyone, attendeesExcludingGuests.
  rewrite elem_of_cons, elem_of_app, list_elem_of_filter. tauto.
Qed.
End partition_facts.

Example partition_small :
  createStageAndViewers Demo.small
  = Ok {| stage := ["o@x.com"; "a@x.com"; "b@x.com"]; viewer := ["g@x.com"] |}.
Proof. reflexivity. Qed.

Example partition_large :
  createStageAndViewers Demo.large
  = Ok {| stage := "o@x.com" :: take 9 Demo.ten;
          viewer := ["a10@x.com"; "t@x.com"; "g@x.com"] |}.
Proof. reflexivity. Qed.

(** The organizer is listed again when the attendee list names them. *)
Example partition_spec_example :
  createStageAndViewers Demo.spec_example
  = Ok {| stage := ["o@x.com"; "o@x.com"; "a@x.com"; "b@x.com"]; viewer := ["g@x.com"] |}.
Proof. reflexivity. Qed.

(** ** C5: at most ten entries *)

(** C5. When the ordered list [everyone] (organizer, then non-guest
    attendees, then team members when a team exists) has at most 10 entries,
    [stage] is [everyone] in that order and [viewer] is exactly the guest
    list. *)
Theorem C5_small_partition (ev : CalendarEvent) (g : list string) :
  read_guests ev = Ok (Some g) →
  (length (everyone ev g) ≤ 10)%nat →
  createStageAndViewers ev = Ok {| stage := everyone ev g; viewer := g |}.
Proof.
  intros Hg Hlen. rewrite (partition_with_guests ev g Hg).
  by rewrite bool_decide_true.
Qed.

Lemma C5_small_partition_witness :
  createStageAndViewers Demo.small
  = Ok {| stage := everyone Demo.small ["g@x.com"]; viewer := ["g@x.com"] |}.
Proof.
  apply (C5_small_partition Demo.small ["g@x.com"]); [reflexivity | vm_compute; lia].
Defined.

(** ** C4: more than ten entries *)


(** C4, counterexample. With the organizer's address entered as a guest and
    ten further attendees, the organizer is both on stage and a viewer. *)
Lemma C4_counterexample :
  ¬ (∀ ev g p,
       read_guests ev = Ok (Some g) →
       (10 < length (everyone ev g))%nat →
       createStageAndViewers ev = Ok p →
       C4_as_stated ev g p).
Proof.
  intros H.
  destruct (H Demo.organizer_invited_large ["o@x.com"]
              {| stage := "o@x.com" :: take 9 Demo.ten;
                 viewer := ["a10@x.com"; "o@x.com"] |})
    as (_ & _ & _ & _ & Hdisj & _); [reflexivity | vm_compute; lia | reflexivity |].
  apply (Hdisj "o@x.com"); cbn; set_solver.
Qed.

(** C4, amended. When [everyone] has more than 10 entries, [stage] is its
    first 10 entries (exactly 10, organizer first), [viewer] is the rest of
    [everyone] in order followed by the guests, the two lists together are
    [everyone] followed by the guests with every entry placed once, so that no
    organizer, attendee, team member or guest is lost; and no email is in
    both lists provided the emails of [everyone] and of the guests are
    pairwise distinct. *)
Theorem C4_large_partition (ev : CalendarEvent) (g : list string) :
  read_guests ev = Ok (Some g) →
  (10 < length (everyone ev g))%nat →
  ∃ p, createStageAndViewers ev = Ok p
    ∧ stage p = take 10 (everyone ev g)
    ∧ length (stage p) = 10%nat
    ∧ head (stage p) = Some (email (organizer ev))
    ∧ viewer p = drop 10 (everyone ev g) ++ g
    ∧ stage p ++ viewer p = everyone ev g ++ g
    ∧ (∀ e, e = email (organizer ev) ∨ e ∈ email <$> attendees ev
            ∨ e ∈ team_emails ev ∨ e ∈ g →
            e ∈ stage p ++ viewer p)
    ∧ (NoDup (everyone ev g ++ g) → ∀ e, e ∈ stage p → e ∉ viewer p).
Proof.
  intros Hg Hlen. eexists. split.
  { rewrite (partition_with_guests ev g Hg). rewrite bool_decide_false by lia. done. }
  cbn [stage viewer].
  assert (Hcat : take 10 (everyone ev g) ++ drop 10 (everyone ev g) ++ g
                 = everyone ev g ++ g).
  { by rewrite app_assoc, take_drop. }
  split_and!.
  - done.
  - rewrite length_take. lia.
  - done.
  - done.
  - exact Hcat.
  - intros e He. rewrite Hcat, elem_of_app, elem_of_everyone.
    destruct (decide (e ∈ g)); tauto.
  - intros Hnd e Hs Hv. rewrite <- Hcat in Hnd.
    apply NoDup_app in Hnd as (_ & Hdisj & _). by apply (Hdisj e).
Qed.

Lemma C4_large_partition_witness :
  ∃ p, createStageAndViewers Demo.large = Ok p
    ∧ stage p = take 10 (everyone Demo.large ["g@x.com"])
    ∧ length (stage p) = 10%nat
    ∧ head (stage p) = Some "o@x.com"
    ∧ viewer p = drop 10 (everyone Demo.large ["g@x.com"]) ++ ["g@x.com"]
    ∧ stage p ++ viewer p = everyone Demo.large ["g@x.com"] ++ ["g@x.com"]
    ∧ (∀ e, e = "o@x.com" ∨ e ∈ email <$> attendees Demo.large
            ∨ e ∈ team_emails Demo.large ∨ e ∈ ["g@x.com"] →
            e ∈ stage p ++ viewer p)
    ∧ (NoDup (everyone Demo.large ["g@x.com"] ++ ["g@x.com"]) →
       ∀ e, e ∈ stage p → e ∉ viewer p).
Proof.
  apply (C4_large_partition Demo.large ["g@x.com"]); [reflexivity | vm_compute; lia].
Defined.

(** ** C2: guests and the stage *)

(** Every stage member comes from [everyone]. *)
Lemma stage_from_everyone (ev : CalendarEvent) (g : list string) (p : Partition) (e : string) :
  read_guests ev = Ok (Some g) →
  createStageAndViewers ev = Ok p →
  e ∈ stage p → e ∈ everyone ev g.
Proof.
  intros Hg Hp. rewrite (partition_with_guests ev g Hg) in Hp.
  injection Hp as <-. destruct (bool_decide _); cbn [stage]; [done|].
  apply (subseteq_take 10 (everyone ev g)).
Qed.

(** C2, counterexample. The booker names the organizer's own address as a
    guest: the organizer is on stage all the same. *)
Lemma C2_counterexample :
  ¬ (∀ ev g p,
       read_guests ev = Ok (Some g) →
       createStageAndViewers ev = Ok p →
       ∀ e, e ∈ g → e ∉ stage p).
Proof.
  intros H.
  apply (H Demo.organizer_invited ["o@x.com"]
           {| stage := ["o@x.com"]; viewer := ["o@x.com"] |}
           eq_refl eq_refl "o@x.com"); cbn; set_solver.
Qed.

(** C2, amended. For every partition input, whatever the number of
    participants, a guest email is in [stage] only when it is also the
    organizer's email or a team member's email. *)
Theorem C2_guest_on_stage (ev : CalendarEvent) (g : list string) (p : Partition) (e : string) :
  read_guests ev = Ok (Some g) →
  createStageAndViewers ev = Ok p →
  e ∈ g → e ∈ stage p →
  e = email (organizer ev) ∨ e ∈ team_emails ev.
Proof.
  intros Hg Hp Heg Hes.
  apply (stage_from_everyone ev g p e Hg Hp), elem_of_everyone in Hes.
  tauto.
Qed.

Lemma C2_guest_on_stage_witness :
  "o@x.com" = email (organizer Demo.organizer_invited)
  ∨ "o@x.com" ∈ team_emails Demo.organizer_invited.
Proof.
  apply (C2_guest_on_stage Demo.organizer_invited ["o@x.com"]
           {| stage := ["o@x.com"]; viewer := ["o@x.com"] |} "o@x.com");
    [reflexivity | reflexivity | constructor | constructor].
Defined.

(** When neither the organizer nor a team member is a guest, no guest is on
    stage. *)
Corollary no_guest_on_stage (ev : CalendarEvent) (g : list string) (p : Partition) :
  read_guests ev = Ok (Some g) →
  createStageAndViewers ev = Ok p →
  email (organizer ev) ∉ g →
  (∀ t, t ∈ team_emails ev → t ∉ g) →
  ∀ e, e ∈ g → e ∉ stage p.
Proof.
  intros Hg Hp Ho Ht e Heg Hes.
  apply (stage_from_everyone ev g p e Hg Hp), elem_of_everyone in Hes.
  destruct Hes as [->|[[_ ?]|?]]; [done|done|]. by apply (Ht e).
Qed.

(** ** Running the adapter's operations *)

Ltac io_unfold :=
  unfold run, mbind, mret, IO_bind, IO_ret, lift, fetch, catch, respond.

Section adapter_runs.
Context (X : Externals) (credential : CredentialPayload) (w : World).

(** [createMeeting], step by step. *)
Lemma createMeeting_run (ev : CalendarEvent) :
  run (createMeeting X credential ev) w =
  match getApiKey X credential with
  | Throw e => ([], Throw e)
  | Ok apiKey =>
      match getQueryString X ev create with
      | Throw e => ([], Throw e)
      | Ok form =>
          let req := create_request apiKey form in
          ([EFetch req],
           match fetch_reply w req with
           | Rejected => Throw FetchError
           | Resolved response =>
               if status response =? 200 then session_descriptor response
               else Ok empty
           end)
      end
  end.
Proof.
  unfold createMeeting. io_unfold.
  destruct (getApiKey X credential) as [apiKey|e]; [|done].
  destruct (getQueryString X ev create) as [form|e]; [|done].
  cbn. destruct (fetch_reply w _) as [response|]; [|done].
  by destruct (status response =? 200).
Qed.

(** [deleteMeeting], step by step. *)
Lemma deleteMeeting_run (uid : string) :
  run (deleteMeeting X credential uid) w =
  match getApiKey X credential with
  | Throw e => ([], Throw e)
  | Ok apiKey =>
      let get := recordings_request apiKey uid in
      let del := delete_request apiKey uid in
      match fetch_reply w get with
      | Rejected => ([EFetch get], Throw FetchError)
      | Resolved res =>
          match canWeDelete res with
          | Throw e => ([EFetch get], Throw e)
          | Ok false => ([EFetch get], Ok tt)
          | Ok true =>
              ([EFetch get; EFetch del],
               match fetch_reply w del with
               | Rejected => Throw FetchError
               | Resolved _ => Ok tt
               end)
          end
      end
  end.
Proof.
  unfold deleteMeeting. io_unfold.
  destruct (getApiKey X credential) as [apiKey|e]; [|done].
  cbn. destruct (fetch_reply w (recordings_request apiKey uid)) as [res|]; [|done].
  destruct (canWeDelete res) as [[|]|e]; cbn; [|done|done].
  by destruct (fetch_reply w (delete_request apiKey uid)).
Qed.

(** [updateMeeting] with a meeting identifier, step by step. *)
Lemma updateMeeting_run (ref : PartialReference) (ev : CalendarEvent) (mid : string) :
  meetingId ref = Some mid → mid ≠ "" →
  run (updateMeeting X credential ref ev) w =
  match getApiKey X credential with
  | Throw e => ([], Throw e)
  | Ok apiKey =>
      match getQueryString X ev update with
      | Throw e => ([], Throw e)
      | Ok form =>
          let req := update_request apiKey mid form in
          ([EFetch req],
           match fetch_reply w req with
           | Rejected => Throw FetchError
           | Resolved _ =>
               Ok {| VideoCallData.id := mid;
                     VideoCallData.password := meetingPassword ref;
                     VideoCallData.url := meetingUrl ref;
                     VideoCallData.type := metadata.type |}
           end)
      end
  end.
Proof.
  intros Hmid Hne. unfold updateMeeting. rewrite Hmid.
  apply String.eqb_neq in Hne. rewrite Hne. io_unfold.
  destruct (getApiKey X credential) as [apiKey|e]; [|done].
  destruct (getQueryString X ev update) as [form|e]; [|done].
  cbn. by destruct (fetch_reply w _).
Qed.

(** Without a meeting identifier nothing is sent. *)
Lemma updateMeeting_without_id (ref : PartialReference) (ev : CalendarEvent) :
  meetingId ref = None ∨ meetingId ref = Some "" →
  run (updateMeeting X credential ref ev) w = ([], Ok empty).
Proof. unfold updateMeeting. by intros [->| ->]. Qed.
End adapter_runs.

(** A key that is there but falsy or absent gives [undefined]. *)
Lemma getApiKey_missing (X : Externals) (credential : CredentialPayload) :
  truthy (key credential) = false → getApiKey X credential = Ok None.
Proof. unfold getApiKey. by intros ->. Qed.

(** A failing partition fails the payload. *)
Lemma getQueryString_partition (X : Externals) (ev : CalendarEvent) (a : Action) (e : Error) :
  createStageAndViewers ev = Throw e → getQueryString X ev a = Throw e.
Proof. intros H. unfold getQueryString, getQueryData. by rewrite H. Qed.

Lemma getQueryString_Ok_partition (X : Externals) (ev : CalendarEvent) (a : Action) (s : string) :
  getQueryString X ev a = Ok s → ∃ p, createStageAndViewers ev = Ok p.
Proof.
  destruct (createStageAndViewers ev) as [p|e] eqn:Hp; [eauto|].
  rewrite (getQueryString_partition X ev a e Hp). discriminate.
Qed.

(** ** C10: the guests entry is required *)

(** C10. Building the payload, and so [createMeeting] and [updateMeeting]
    with a meeting identifier, needs [responses] to hold a [guests] entry
    whose value is a list: whenever the payload is built such an entry is
    there, and when [responses] is absent or has no [guests] entry the
    partition, the payload and both operations throw, before any request is
    sent, instead of taking the guest list as empty. *)
Theorem C10_guests_required (X : Externals) (credential : CredentialPayload)
    (ref : PartialReference) (ev : CalendarEvent) (w : World) :
  (∀ a s, getQueryString X ev a = Ok s →
     ∃ r f g, responses ev = Some r ∧ r !! "guests" = Some f ∧ value f = Some g)
  ∧ (responses ev = None ∨ (∃ r, responses ev = Some r ∧ r !! "guests" = None) →
     (∃ e, createStageAndViewers ev = Throw e)
     ∧ (∀ a, ∃ e, getQueryString X ev a = Throw e)
     ∧ (∃ e, run (createMeeting X credential ev) w = ([], Throw e))
     ∧ (∀ mid, meetingId ref = Some mid → mid ≠ "" →
          ∃ e, run (updateMeeting X credential ref ev) w = ([], Throw e))).
Proof.
  split.
  - intros a s Hs.
    destruct (getQueryString_Ok_partition X ev a s Hs) as [p Hp].
    destruct (partition_Ok_guests ev p Hp) as [g Hg].
    apply read_guests_Some in Hg as (r & f & ? & ? & ?). by exists r, f, g.
  - intros Hmiss.
    assert (∃ e, createStageAndViewers ev = Throw e) as [e He].
    { destruct (read_guests_missing ev Hmiss) as [Hn|[e He]].
      - by apply partition_without_guests.
      - exists e. unfold createStageAndViewers. by rewrite He. }
    split_and!.
    + by exists e.
    + intros a. exists e. by apply getQueryString_partition.
    + rewrite createMeeting_run.
      rewrite (getQueryString_partition X ev create e He).
      destruct (getApiKey X credential); eauto.
    + intros mid Hmid Hne. rewrite (updateMeeting_run X credential w ref ev mid Hmid Hne).
      rewrite (getQueryString_partition X ev update e He).
      destruct (getApiKey X credential); eauto.
Qed.

Lemma C10_guests_required_witness :
  (∃ e, createStageAndViewers Demo.no_responses = Throw e)
  ∧ (∀ a, ∃ e, getQueryString Demo.X Demo.no_responses a = Throw e)
  ∧ (∃ e, run (createMeeting Demo.X Demo.credential Demo.no_responses)
              (Demo.world Rejected) = ([], Throw e))
  ∧ (∀ mid, Some "m1" = Some mid → mid ≠ "" →
       ∃ e, run (updateMeeting Demo.X Demo.credential
                   {| meetingId := Some "m1"; meetingPassword := ""; meetingUrl := "u" |}
                   Demo.no_responses) (Demo.world Rejected) = ([], Throw e)).
Proof.
  apply (C10_guests_required Demo.X Demo.credential
           {| meetingId := Some "m1"; meetingPassword := ""; meetingUrl := "u" |}
           Demo.no_responses (Demo.world Rejected)).
  left. reflexivity.
Defined.

(** ** C6 and C9: the status test of [createMeeting] *)

Lemma not_ok_not_200 (response : Response) :
  ok response = false → (status response =? 200) = false.
Proof. unfold ok. lia. Qed.

(** C6. For every event, when the provider's response to [createMeeting] has
    a status that is not a success, the operation resolves with exactly the
    sentinel empty descriptor; nothing is thrown. *)
Theorem C6_create_soft_failure (X : Externals) (credential : CredentialPayload)
    (ev : CalendarEvent) (w : World) (tr : list Event) (out : Result VideoCallData.t)
    (req : Request) (response : Response) :
  run (createMeeting X credential ev) w = (tr, out) →
  req ∈ requests tr →
  fetch_reply w req = Resolved response →
  ok response = false →
  out = Ok empty.
Proof.
  rewrite createMeeting_run. intros Hrun Hreq Hreply Hok.
  destruct (getApiKey X credential) as [apiKey|e].
  2: { injection Hrun as <- <-. by apply elem_of_nil in Hreq. }
  destruct (getQueryString X ev create) as [form|e].
  2: { injection Hrun as <- <-. by apply elem_of_nil in Hreq. }
  cbn in Hrun. injection Hrun as <- <-.
  cbn in Hreq. apply list_elem_of_singleton in Hreq as ->.
  by rewrite Hreply, (not_ok_not_200 response Hok).
Qed.

Lemma C6_create_soft_failure_witness :
  snd (run (createMeeting Demo.X Demo.credential Demo.small)
         (Demo.world (Demo.replies 503 (JObj [("message", JStr "unavailable")]))))
  = Ok empty.
Proof.
  pose (w := Demo.world (Demo.replies 503 (JObj [("message", JStr "unavailable")]))).
  pose (r := run (createMeeting Demo.X Demo.credential Demo.small) w).
  apply (C6_create_soft_failure Demo.X Demo.credential Demo.small w
           (fst r) (snd r)
           (create_request (Some "sk_live")
              "sessionTitle=Interview&date=2024-06-01&startTime=08%3A00%20PM&endTime=09%3A00%20PM&timeZone=Asia%2FKolkata&stage=o%40x.com&stage=a%40x.com&stage=b%40x.com&viewer=g%40x.com&showID=show-1")
           {| status := 503; payload := Some (JObj [("message", JStr "unavailable")]) |});
    [reflexivity | vm_compute; constructor | reflexivity | reflexivity].
Defined.

(** The descriptor built from a 200 response is never the sentinel. *)
Lemma session_descriptor_not_empty (response : Response) (d : VideoCallData.t) :
  session_descriptor response = Ok d → d ≠ empty.
Proof.
  unfold session_descriptor. intros H ->.
  destruct (json response) as [j|]; [|done]. cbn in H.
  destruct (parse _ j) as [o|]; [|done]. cbn in H.
  destruct (field_string o "sessionID") as [sid|]; [|done]. cbn in H.
  destruct (field_string o "showID") as [shid|]; [|done]. cbn in H.
  discriminate.
Qed.

(** C9. [createMeeting] returns a descriptor other than the sentinel only
    when the provider's response status is exactly 200; for every other
    status, other success statuses such as 201 included, it returns the
    sentinel empty descriptor. *)
Theorem C9_only_status_200 (X : Externals) (credential : CredentialPayload)
    (ev : CalendarEvent) (w : World) (tr : list Event) (out : Result VideoCallData.t) :
  run (createMeeting X credential ev) w = (tr, out) →
  (∀ d, out = Ok d → d ≠ empty →
     ∃ req response, tr = [EFetch req] ∧ fetch_reply w req = Resolved response
                     ∧ status response = 200)
  ∧ (∀ req response, req ∈ requests tr → fetch_reply w req = Resolved response →
       status response ≠ 200 → out = Ok empty).
Proof.
  rewrite createMeeting_run. intros Hrun.
  destruct (getApiKey X credential) as [apiKey|e].
  2: { injection Hrun as <- <-. split; [done|]. intros ? ? Hreq. by apply elem_of_nil in Hreq. }
  destruct (getQueryString X ev create) as [form|e].
  2: { injection Hrun as <- <-. split; [done|]. intros ? ? Hreq. by apply elem_of_nil in Hreq. }
  cbn in Hrun. injection Hrun as <- <-. split.
  - intros d Hd Hne. exists (create_request apiKey form).
    destruct (fetch_reply w _) as [response|]; [|done].
    exists response. destruct (status response =? 200) eqn:Hs.
    + split_and!; [done|done|lia].
    + congruence.
  - intros req response Hreq Hreply Hs.
    cbn in Hreq. apply list_elem_of_singleton in Hreq as ->.
    rewrite Hreply. by destruct (status response =? 200) eqn:E; [lia|].
Qed.

Lemma C9_only_status_200_witness :
  let w := Demo.world (Demo.replies 201 (JObj [("sessionID", JStr "s1"); ("showID", JStr "sh")])) in
  let r := run (createMeeting Demo.X Demo.credential Demo.small) w in
  (∀ d, snd r = Ok d → d ≠ empty →
     ∃ req response, fst r = [EFetch req] ∧ fetch_reply w req = Resolved response
                     ∧ status response = 200)
  ∧ (∀ req response, req ∈ requests (fst r) → fetch_reply w req = Resolved response →
       status response ≠ 200 → snd r = Ok empty).
Proof.
  intros w r.
  apply (C9_only_status_200 Demo.X Demo.credential Demo.small w (fst r) (snd r)).
  reflexivity.
Defined.

Example createMeeting_201 :
  snd (run (createMeeting Demo.X Demo.credential Demo.small)
         (Demo.world (Demo.replies 201 (JObj [("sessionID", JStr "s1"); ("showID", JStr "sh")]))))
  = Ok empty.
Proof. reflexivity. Qed.

Example createMeeting_200 :
  snd (run (createMeeting Demo.X Demo.credential Demo.small)
         (Demo.world (Demo.replies 200 (JObj [("sessionID", JStr "s1"); ("showID", JStr "sh")]))))
  = Ok {| VideoCallData.type := "squadcast_video";
          VideoCallData.id := "s1";
          VideoCallData.password := "";
          VideoCallData.url := "https://app.squadcast.fm/studio/sh/session/s1" |}.
Proof. reflexivity. Qed.

(** ** C3: the key on outbound calls *)

(** A stored key that is present but not of the expected shape, or that does
    not decrypt, stops every operation before any request. *)
Lemma getApiKey_failure_stops (X : Externals) (credential : CredentialPayload)
    (ev : CalendarEvent) (w : World) (uid : string) (e : Error) :
  getApiKey X credential = Throw e →
  run (createMeeting X credential ev) w = ([], Throw e)
  ∧ run (deleteMeeting X credential uid) w = ([], Throw e).
Proof.
  intros H. by rewrite createMeeting_run, deleteMeeting_run, H.
Qed.

(** C3, on the code. With a credential whose [key] is absent, [getApiKey]
    returns undefined and each operation goes on: its first request carries
    the header [Bearer undefined]. *)
Theorem C3_absent_key_is_sent (X : Externals) (credential : CredentialPayload)
    (ref : PartialReference) (ev : CalendarEvent) (w : World)
    (uid mid formC formU : string) :
  truthy (key credential) = false →
  getQueryString X ev create = Ok formC →
  getQueryString X ev update = Ok formU →
  meetingId ref = Some mid → mid ≠ "" →
  (∃ req, head (requests (fst (run (createMeeting X credential ev) w))) = Some req
          ∧ authorization req = "Bearer undefined")
  ∧ (∃ req, head (requests (fst (run (deleteMeeting X credential uid) w))) = Some req
            ∧ authorization req = "Bearer undefined")
  ∧ (∃ req, head (requests (fst (run (updateMeeting X credential ref ev) w))) = Some req
            ∧ authorization req = "Bearer undefined").
Proof.
  intros Hkey HC HU Hmid Hne.
  rewrite createMeeting_run, deleteMeeting_run,
    (updateMeeting_run X credential w ref ev mid Hmid Hne).
  rewrite (getApiKey_missing X credential Hkey), HC, HU. cbn.
  split_and!.
  - eexists. split; reflexivity.
  - destruct (fetch_reply w _) as [res|]; [|eexists; split; reflexivity].
    destruct (canWeDelete res) as [[|]|]; eexists; split; reflexivity.
  - eexists. split; reflexivity.
Qed.

Lemma C3_absent_key_is_sent_witness :
  let w := Demo.world (Demo.replies 401 (JObj [("message", JStr "Unauthorized")])) in
  let ref := {| meetingId := Some "m1"; meetingPassword := ""; meetingUrl := "u" |} in
  (∃ req, head (requests (fst (run (createMeeting Demo.X Demo.credential_without_key
                                      Demo.small) w))) = Some req
          ∧ authorization req = "Bearer undefined")
  ∧ (∃ req, head (requests (fst (run (deleteMeeting Demo.X Demo.credential_without_key
                                        "m1") w))) = Some req
            ∧ authorization req = "Bearer undefined")
  ∧ (∃ req, head (requests (fst (run (updateMeeting Demo.X Demo.credential_without_key
                                        ref Demo.small) w))) = Some req
            ∧ authorization req = "Bearer undefined").
Proof.
  intros w ref.
  apply (C3_absent_key_is_sent Demo.X Demo.credential_without_key ref Demo.small w
           "m1" "m1"
           "sessionTitle=Interview&date=2024-06-01&startTime=08%3A00%20PM&endTime=09%3A00%20PM&timeZone=Asia%2FKolkata&stage=o%40x.com&stage=a%40x.com&stage=b%40x.com&viewer=g%40x.com&showID=show-1"
           "sessionTitle=Interview&date=2024-06-01&startTime=02%3A30%20PM&endTime=03%3A30%20PM&timeZone=Asia%2FKolkata&stage=o%40x.com&stage=a%40x.com&stage=b%40x.com&viewer=g%40x.com&showID=show-1");
    [reflexivity | reflexivity | reflexivity | reflexivity | discriminate].
Defined.

(** ** C1: the delete guard *)

(** One element of the recordings list under the schema: an element with a
    string [status] is reduced to that field alone, whatever else it has. *)
Lemma recording_element_parse (fields : list (string * JSON)) :
  zparse (ZOr (ZObject [("status", ZString)]) (ZObject [("recordingID", ZString)]))
    (JObj fields) =
  match jlookup "status" fields with
  | Some (JStr s) => Some (JObj [("status", JStr s)])
  | _ =>
      match jlookup "recordingID" fields with
      | Some (JStr r) => Some (JObj [("recordingID", JStr r)])
      | _ => None
      end
  end.
Proof.
  cbn. destruct (jlookup "status" fields) as [[]|]; cbn;
    destruct (jlookup "recordingID" fields) as [[]|]; reflexivity.
Qed.

Section delete_guard.
Context (X : Externals) (credential : CredentialPayload) (w : World).
Context (uid : string) (apiKey : option string).
Hypothesis Hkey : getApiKey X credential = Ok apiKey.

(** The first element carries a recording identifier and no status: the
    DELETE is not sent and the operation returns. *)
Lemma deleteMeeting_recording_kept (code : Z) (r : string) :
  fetch_reply w (recordings_request apiKey uid)
    = Resolved {| status := code; payload := Some (JArr [JObj [("recordingID", JStr r)]]) |} →
  run (deleteMeeting X credential uid) w = ([EFetch (recordings_request apiKey uid)], Ok tt).
Proof. intros H. by rewrite deleteMeeting_run, Hkey; cbn; rewrite H. Qed.

(** The first element carries only a status: the DELETE is sent. *)
Lemma deleteMeeting_status_deleted (code : Z) (s : string) :
  fetch_reply w (recordings_request apiKey uid)
    = Resolved {| status := code; payload := Some (JArr [JObj [("status", JStr s)]]) |} →
  requests (fst (run (deleteMeeting X credential uid) w))
  = [recordings_request apiKey uid; delete_request apiKey uid].
Proof. intros H. by rewrite deleteMeeting_run, Hkey; cbn; rewrite H. Qed.

(** The first element carries a status and a recording identifier: the
    identifier is stripped by the schema and the DELETE is sent. *)
Lemma deleteMeeting_status_and_recording (code : Z) (s r : string) :
  fetch_reply w (recordings_request apiKey uid)
    = Resolved {| status := code;
                  payload := Some (JArr [JObj [("status", JStr s); ("recordingID", JStr r)]]) |} →
  requests (fst (run (deleteMeeting X credential uid) w))
  = [recordings_request apiKey uid; delete_request apiKey uid].
Proof. intros H. by rewrite deleteMeeting_run, Hkey; cbn; rewrite H. Qed.
End delete_guard.

(** C1, on the code. When the recordings list is empty, element 0 is
    undefined and the test on it throws: [deleteMeeting] rejects with a
    TypeError after the recordings request, and the DELETE is not sent. *)
Theorem C1_empty_recordings_list (X : Externals) (credential : CredentialPayload)
    (w : World) (uid : string) (apiKey : option string) (code : Z) :
  getApiKey X credential = Ok apiKey →
  fetch_reply w (recordings_request apiKey uid)
    = Resolved {| status := code; payload := Some (JArr []) |} →
  run (deleteMeeting X credential uid) w
  = ([EFetch (recordings_request apiKey uid)], Throw TypeError).
Proof. intros Hkey H. by rewrite deleteMeeting_run, Hkey; cbn; rewrite H. Qed.

Lemma C1_empty_recordings_list_witness :
  run (deleteMeeting Demo.X Demo.credential "m1") (Demo.world (Demo.replies 200 (JArr [])))
  = ([EFetch (recordings_request (Some "sk_live") "m1")], Throw TypeError).
Proof.
  apply (C1_empty_recordings_list Demo.X Demo.credential
           (Demo.world (Demo.replies 200 (JArr []))) "m1" (Some "sk_live") 200);
    reflexivity.
Defined.

(** ** C8: the install probe *)

(** C8, on the code. When the probe is rejected the handler answers 400, and
    then goes on: the user is read and the credential, with the encrypted
    key, is stored. *)
Theorem C8_rejected_key_is_stored (X : Externals) (req : ApiRequest) (w : World)
    (apiKey k : string) (teamId : option Z) (user : User) (response : Response) :
  checkSession X req = Ok tt →
  req_method req = "POST" →
  formSchema_parse (req_body req) = Ok (apiKey, teamId) →
  fetch_reply w (probe_request apiKey) = Resolved response →
  ok response = false →
  find_user w (session_user_id req) = Some user →
  symmetricEncrypt X apiKey (default "" (CALENDSO_ENCRYPTION_KEY X)) = Ok k →
  ∃ data rest,
    fst (run (handler X req) w)
    = [EFetch (probe_request apiKey);
       ERespond 400 (JObj [("message", JStr "Invalid API key")]);
       ECredentialCreate data] ++ rest
    ∧ stored (fst (run (handler X req) w)) = [data]
    ∧ cd_key_apiKey data = k.
Proof.
  intros Hs Hm Hf Hreply Hok Hu Hk.
  unfold handler, findFirstOrThrow, credential_create. io_unfold.
  rewrite Hs, Hm, Hf. cbn. rewrite Hreply, Hok. cbn. rewrite Hu, Hk. cbn.
  destruct (negb (falsy_number teamId)); cbn;
    destruct (credential_create_succeeds w _); cbn; eexists _, _; split_and!; reflexivity.
Qed.

Lemma C8_rejected_key_is_stored_witness :
  ∃ data rest,
    fst (run (handler Demo.X (Demo.install_request "bad"))
           (Demo.world (Demo.replies 401 (JObj [("message", JStr "Unauthorized")]))))
    = [EFetch (probe_request "bad");
       ERespond 400 (JObj [("message", JStr "Invalid API key")]);
       ECredentialCreate data] ++ rest
    ∧ stored (fst (run (handler Demo.X (Demo.install_request "bad"))
                     (Demo.world (Demo.replies 401 (JObj [("message", JStr "Unauthorized")])))))
      = [data]
    ∧ cd_key_apiKey data = "ebad".
Proof.
  apply (C8_rejected_key_is_stored Demo.X (Demo.install_request "bad")
           (Demo.world (Demo.replies 401 (JObj [("message", JStr "Unauthorized")])))
           "bad" "ebad" None {| user_email := "o@x.com"; user_id := 7 |}
           {| status := 401; payload := Some (JObj [("message", JStr "Unauthorized")]) |});
    reflexivity.
Defined.

(** An accepted key: one probe, one stored credential, one answer. *)
Example install_accepted :
  fst (run (handler Demo.X (Demo.install_request "good"))
         (Demo.world (Demo.replies 200 (JArr []))))
  = [EFetch (probe_request "good");
     ECredentialCreate
       {| cd_type := "squadcast_video"; cd_key_apiKey := "egood";
          cd_userId := Some 7; cd_teamId := None;
          cd_appId := "squadcast"; cd_invalid := false |};
     ERespond 200 (JObj [("url", JStr "/apps/installed/conferencing?hl=squadcast")])].
Proof. reflexivity. Qed.

(** ** C7: the zone of the rendered times *)

Lemma clock12_read_all :
  forallb (λ m, bool_decide (read_clock12 (substring_0_8 (clock12 m)) = Some m))
    (seqZ 0 1440) = true.
Proof. vm_compute. reflexivity. Qed.

(** The eight characters kept of the rendering determine the minute of the
    day. *)
Lemma clock12_read (m : Z) :
  0 ≤ m < 1440 → read_clock12 (substring_0_8 (clock12 m)) = Some m.
Proof.
  intros Hm. pose proof clock12_read_all as Hall.
  rewrite forallb_forall in Hall.
  specialize (Hall m). rewrite bool_decide_eq_true in Hall. apply Hall.
  apply list_elem_of_In, elem_of_seqZ. lia.
Qed.

Lemma minute_of_day_range (off t : Z) : 0 ≤ minute_of_day off t < 1440.
Proof. unfold minute_of_day. apply Z.mod_pos_bound. lia. Qed.

Lemma rendered_time_inj (off1 off2 t : Z) :
  substring_0_8 (toLocaleTimeString off1 t) = substring_0_8 (toLocaleTimeString off2 t) →
  minute_of_day off1 t = minute_of_day off2 t.
Proof.
  unfold toLocaleTimeString. intros H.
  pose proof (clock12_read _ (minute_of_day_range off1 t)) as H1.
  pose proof (clock12_read _ (minute_of_day_range off2 t)) as H2.
  rewrite H in H1. congruence.
Qed.

Lemma minute_of_day_shift (off t : Z) :
  -1440 < off < 1440 → off ≠ 0 → minute_of_day off t ≠ minute_of_day 0 t.
Proof.
  unfold minute_of_day. intros Hr Hne Heq. rewrite Z.add_0_r in Heq.
  revert Heq. generalize (t / 60000). intros q Heq.
  pose proof (Z.div_mod (q + off) 1440) as Ha.
  pose proof (Z.div_mod q 1440) as Hb.
  assert (off = 1440 * ((q + off) / 1440 - q / 1440)) by lia.
  lia.
Qed.

Lemma zone_offset_range (X : Externals) (tz : string) (t off : Z) :
  zone_offset X tz t = Some off → -1440 < off < 1440.
Proof.
  unfold zone_offset. destruct (String.eqb tz "UTC").
  - intros [= <-]. lia.
  - apply tzOffset_range.
Qed.

Lemma render_time_Ok (X : Externals) (tz : string) (t : Z) (s : string) :
  render_time X tz t = Ok s →
  ∃ off, zone_offset X tz t = Some off ∧ s = substring_0_8 (toLocaleTimeString off t).
Proof.
  unfold render_time. destruct (zone_offset X tz t) as [off|]; [|done].
  intros [= <-]. eauto.
Qed.

(** The two time entries of the payload are the renderings in the zone the
    action selects. *)
Lemma getQueryData_times (X : Externals) (ev : CalendarEvent) (a : Action)
    (d : list (string * ParamValue)) :
  getQueryData X ev a = Ok d →
  ∃ st et,
    render_time X (action_tz ev a) (startTime ev) = Ok st
    ∧ render_time X (action_tz ev a) (endTime ev) = Ok et
    ∧ data_field "startTime" d = Some (PStr st)
    ∧ data_field "endTime" d = Some (PStr et).
Proof.
  unfold getQueryData.
  destruct (createStageAndViewers ev) as [p|]; [|done]. cbn.
  destruct (dayjs_format_date X _ _) as [date|]; [|done]. cbn.
  destruct (render_time X _ (startTime ev)) as [st|]; [|done]. cbn.
  destruct (render_time X _ (endTime ev)) as [et|]; [|done]. cbn.
  destruct (getShowId X ev) as [[s|]|]; [| |done]; cbn.
  - destruct (String.eqb s ""); intros [= <-]; by exists st, et.
  - intros [= <-]. by exists st, et.
Qed.

(** On the [data] objects of the two actions: the create one holds the
    times in the organizer's zone, the update one in UTC, and the two differ
    at a non-zero offset. *)
Lemma getQueryData_asymmetry (X : Externals) (ev : CalendarEvent)
    (dc du : list (string * ParamValue)) :
  getQueryData X ev create = Ok dc →
  getQueryData X ev update = Ok du →
  ∃ offS offE,
    zone_offset X (timeZone (organizer ev)) (startTime ev) = Some offS
    ∧ zone_offset X (timeZone (organizer ev)) (endTime ev) = Some offE
    ∧ data_field "startTime" dc
      = Some (PStr (substring_0_8 (toLocaleTimeString offS (startTime ev))))
    ∧ data_field "endTime" dc
      = Some (PStr (substring_0_8 (toLocaleTimeString offE (endTime ev))))
    ∧ data_field "startTime" du
      = Some (PStr (substring_0_8 (toLocaleTimeString 0 (startTime ev))))
    ∧ data_field "endTime" du
      = Some (PStr (substring_0_8 (toLocaleTimeString 0 (endTime ev))))
    ∧ (offS ≠ 0 → data_field "startTime" dc ≠ data_field "startTime" du)
    ∧ (offE ≠ 0 → data_field "endTime" dc ≠ data_field "endTime" du).
Proof.
  intros Hc Hu.
  apply getQueryData_times in Hc as (sc & ec & Hsc & Hec & Hdsc & Hdec).
  apply getQueryData_times in Hu as (su & eu & Hsu & Heu & Hdsu & Hdeu).
  cbn [action_tz] in *.
  apply render_time_Ok in Hsc as (offS & HoS & ->).
  apply render_time_Ok in Hec as (offE & HoE & ->).
  apply render_time_Ok in Hsu as (o1 & Ho1 & ->).
  apply render_time_Ok in Heu as (o2 & Ho2 & ->).
  cbn in Ho1, Ho2. injection Ho1 as <-. injection Ho2 as <-.
  exists offS, offE. split_and!; try done.
  - intros Hne. rewrite Hdsc, Hdsu. intros Heq.
    assert (minute_of_day offS (startTime ev) = minute_of_day 0 (startTime ev)) as Hm
      by (apply rendered_time_inj; congruence).
    revert Hm.
    by apply (minute_of_day_shift offS (startTime ev) (zone_offset_range _ _ _ _ HoS)).
  - intros Hne. rewrite Hdec, Hdeu. intros Heq.
    assert (minute_of_day offE (endTime ev) = minute_of_day 0 (endTime ev)) as Hm
      by (apply rendered_time_inj; congruence).
    revert Hm.
    by apply (minute_of_day_shift offE (endTime ev) (zone_offset_range _ _ _ _ HoE)).
Qed.

Example times_create :
  (d ← getQueryData Demo.X Demo.small create;
   Ok (data_field "startTime" d, data_field "endTime" d))
  = Ok (Some (PStr "08:00 PM"), Some (PStr "09:00 PM")).
Proof. reflexivity. Qed.

Example times_update :
  (d ← getQueryData Demo.X Demo.small update;
   Ok (data_field "startTime" d, data_field "endTime" d))
  = Ok (Some (PStr "02:30 PM"), Some (PStr "03:30 PM")).
Proof. reflexivity. Qed.

(** * Further properties of the code *)

Set Warnings "-clear-no-such-hyp".

(** ** The partition, whatever the size *)

#[global] Instance Ok_inj {A} : Inj (=) (=) (@Ok A).
Proof. by intros x y [= ->]. Qed.

(** X1. Whenever the partition is built, the stage holds at most 10 emails
    (as many as [everyone] has, up to 10) and the organizer is its first
    entry. *)
Theorem stage_capacity (ev : CalendarEvent) (g : list string) (p : Partition) :
  read_guests ev = Ok (Some g) →
  createStageAndViewers ev = Ok p →
  (length (stage p) ≤ 10)%nat
  ∧ length (stage p) = (length (everyone ev g) `min` 10)%nat
  ∧ head (stage p) = Some (email (organizer ev)).
Proof.
  intros Hg Hp. rewrite (partition_with_guests ev g Hg) in Hp.
  apply (inj Ok) in Hp. subst p.
  case_bool_decide as Hb; cbn [stage].
  - split_and!; [done|lia|done].
  - rewrite length_take. split_and!; [lia|lia|done].
Qed.

Lemma stage_capacity_witness :
  (length ("o@x.com" :: take 9 Demo.ten) ≤ 10)%nat
  ∧ length ("o@x.com" :: take 9 Demo.ten)
    = (length (everyone Demo.large ["g@x.com"]) `min` 10)%nat
  ∧ head ("o@x.com" :: take 9 Demo.ten) = Some "o@x.com".
Proof.
  apply (stage_capacity Demo.large ["g@x.com"]
           {| stage := "o@x.com" :: take 9 Demo.ten;
              viewer := ["a10@x.com"; "t@x.com"; "g@x.com"] |});
    reflexivity.
Defined.

(** X2. Whenever the partition is built, every guest email is a viewer (the
    guest list is the tail of [viewer]), and stage followed by viewer is
    [everyone] followed by the guests: the organizer, every attendee and
    every team member is in one of the two lists, whatever their number. *)
Theorem guests_are_viewers (ev : CalendarEvent) (g : list string) (p : Partition) :
  read_guests ev = Ok (Some g) →
  createStageAndViewers ev = Ok p →
  g `suffix_of` viewer p
  ∧ (∀ e, e ∈ g → e ∈ viewer p)
  ∧ stage p ++ viewer p = everyone ev g ++ g
  ∧ (∀ e, e = email (organizer ev) ∨ e ∈ email <$> attendees ev ∨ e ∈ team_emails ev →
          e ∈ stage p ++ viewer p).
Proof.
  intros Hg Hp. rewrite (partition_with_guests ev g Hg) in Hp.
  apply (inj Ok) in Hp. subst p.
  assert (Hall : ∀ e, e = email (organizer ev) ∨ e ∈ email <$> attendees ev
                      ∨ e ∈ team_emails ev → e ∈ everyone ev g ++ g).
  { intros e He. rewrite elem_of_app, elem_of_everyone.
    destruct (decide (e ∈ g)); tauto. }
  case_bool_decide; cbn [stage viewer].
  - split_and!; [done|done|done|exact Hall].
  - assert (Hcat : take 10 (everyone ev g) ++ drop 10 (everyone ev g) ++ g
                   = everyone ev g ++ g) by (by rewrite app_assoc, take_drop).
    split_and!.
    + by apply suffix_app_r.
    + intros e He. apply elem_of_app. by right.
    + exact Hcat.
    + intros e He. rewrite Hcat. by apply Hall.
Qed.

Lemma guests_are_viewers_witness :
  let p := {| stage := "o@x.com" :: take 9 Demo.ten;
              viewer := ["a10@x.com"; "t@x.com"; "g@x.com"] |} in
  ["g@x.com"] `suffix_of` viewer p
  ∧ (∀ e, e ∈ ["g@x.com"] → e ∈ viewer p)
  ∧ stage p ++ viewer p = everyone Demo.large ["g@x.com"] ++ ["g@x.com"]
  ∧ (∀ e, e = email (organizer Demo.large) ∨ e ∈ email <$> attendees Demo.large
          ∨ e ∈ team_emails Demo.large → e ∈ stage p ++ viewer p).
Proof.
  intros p. apply (guests_are_viewers Demo.large ["g@x.com"] p); reflexivity.
Defined.

(** ** The form encoding *)

Lemma append_cons (x : ascii) (a b : string) : String x a +:+ b = String x (a +:+ b).
Proof. reflexivity. Qed.

Lemma append_nil (b : string) : "" +:+ b = b.
Proof. reflexivity. Qed.

Lemma append_assoc (a b c : string) : (a +:+ b) +:+ c = a +:+ (b +:+ c).
Proof. induction a as [|x a IH]; [done|]. by rewrite !append_cons, IH. Qed.

Lemma contains_app (c : ascii) (a b : string) :
  contains c (a +:+ b) = contains c a || contains c b.
Proof.
  induction a as [|x a IH]; [done|].
  rewrite append_cons. cbn [contains]. by rewrite IH, orb_assoc.
Qed.

Lemma hex_digit_all :
  forallb (λ k, unreserved (hex_digit k)
                && bool_decide (hex_value (hex_digit k) = Some k)) (seqZ 0 16) = true.
Proof. vm_compute. reflexivity. Qed.

Lemma hex_digit_spec (k : Z) :
  0 ≤ k < 16 → unreserved (hex_digit k) = true ∧ hex_value (hex_digit k) = Some k.
Proof.
  intros Hk. pose proof hex_digit_all as Hall. rewrite forallb_forall in Hall.
  specialize (Hall k). rewrite andb_true_iff, bool_decide_eq_true in Hall.
  apply Hall, list_elem_of_In, elem_of_seqZ. lia.
Qed.

Lemma byte_range (a : ascii) : 0 ≤ Z.of_nat (nat_of_ascii a) < 256.
Proof. pose proof (nat_ascii_bounded a). lia. Qed.

Lemma byte_nibbles (a : ascii) :
  let n := Z.of_nat (nat_of_ascii a) in
  0 ≤ n / 16 < 16 ∧ 0 ≤ n mod 16 < 16
  ∧ ascii_of_nat (Z.to_nat (16 * (n / 16) + n mod 16)) = a.
Proof.
  intros n. pose proof (byte_range a) as Hn. fold n in Hn.
  split; [|split].
  - split; [apply Z.div_pos; lia | apply Z.div_lt_upper_bound; lia].
  - apply Z.mod_pos_bound. lia.
  - rewrite <- (Z.div_mod n 16) by lia. unfold n.
    by rewrite Nat2Z.id, ascii_nat_embedding.
Qed.

Lemma encode_cons (a : ascii) (s : string) :
  encodeURIComponent (String a s) =
  if unreserved a then String a (encodeURIComponent s)
  else
    let n := Z.of_nat (nat_of_ascii a) in
    String "%" (String (hex_digit (n / 16)) (String (hex_digit (n mod 16))
      (encodeURIComponent s))).
Proof. reflexivity. Qed.

Lemma contains_cons (c a : ascii) (s : string) :
  contains c (String a s) = Ascii.eqb a c || contains c s.
Proof. reflexivity. Qed.

Lemma unsafe_differs (a c : ascii) : safe a = true → safe c = false → Ascii.eqb a c = false.
Proof.
  intros Ha Hc. apply Ascii.eqb_neq. intros ->. congruence.
Qed.

(** One step of the encoding emits no character outside the safe ones. *)
Lemma contains_encode_cons (a c : ascii) (s : string) :
  safe c = false →
  contains c (encodeURIComponent (String a s)) = contains c (encodeURIComponent s).
Proof.
  intros Hc. rewrite encode_cons. destruct (unreserved a) eqn:Ha.
  - rewrite contains_cons, (unsafe_differs a c); [done| |done].
    unfold safe. by rewrite Ha.
  - destruct (byte_nibbles a) as (Hhi & Hlo & _).
    destruct (hex_digit_spec _ Hhi) as [Uhi _], (hex_digit_spec _ Hlo) as [Ulo _].
    cbv zeta. rewrite !contains_cons.
    rewrite (unsafe_differs "%" c) by done.
    rewrite (unsafe_differs (hex_digit _) c) by (try done; unfold safe; by rewrite Uhi).
    rewrite (unsafe_differs (hex_digit _) c) by (try done; unfold safe; by rewrite Ulo).
    done.
Qed.

Lemma encode_free (s : string) (c : ascii) :
  safe c = false → contains c (encodeURIComponent s) = false.
Proof.
  intros Hc. induction s as [|a s IH]; [done|]. by rewrite contains_encode_cons.
Qed.

(** X3. The encoding emits only unreserved characters and [%]: an encoded
    name or value never contains [&], [=], a space or any other reserved
    character. *)
Theorem encodeURIComponent_alphabet (s : string) (c : ascii) :
  contains c (encodeURIComponent s) = true → unreserved c = true ∨ c = "%"%char.
Proof.
  intros Hc. destruct (safe c) eqn:Hs.
  - unfold safe in Hs. apply orb_true_iff in Hs as [?|?%Ascii.eqb_eq]; auto.
  - exfalso. induction s as [|a s IH]; [done|].
    rewrite contains_encode_cons in Hc by done. auto.
Qed.

Lemma encodeURIComponent_alphabet_witness :
  unreserved "2" = true ∨ "2"%char = "%"%char.
Proof.
  apply (encodeURIComponent_alphabet "a b" "2"). reflexivity.
Defined.

Lemma percent_decode_cons (c : ascii) (s' : string) :
  percent_decode (String c s') =
  let keep := String c (percent_decode s') in
  if Ascii.eqb c "%" then
    match s' with
    | String h (String l rest) =>
        match hex_value h, hex_value l with
        | Some a, Some b =>
            String (ascii_of_nat (Z.to_nat (16 * a + b))) (percent_decode rest)
        | _, _ => keep
        end
    | _ => keep
    end
  else keep.
Proof. reflexivity. Qed.

(** Decoding undoes one step of the encoding. *)
Lemma percent_decode_encode_cons (a : ascii) (s : string) :
  percent_decode (encodeURIComponent (String a s))
  = String a (percent_decode (encodeURIComponent s)).
Proof.
  rewrite encode_cons. destruct (unreserved a) eqn:Ha.
  - rewrite percent_decode_cons. cbv zeta.
    assert (Ascii.eqb a "%" = false) as ->; [|done].
    apply Ascii.eqb_neq. intros ->. vm_compute in Ha. discriminate.
  - cbv zeta. destruct (byte_nibbles a) as (Hhi & Hlo & Hback).
    destruct (hex_digit_spec _ Hhi) as [_ Vhi], (hex_digit_spec _ Hlo) as [_ Vlo].
    rewrite percent_decode_cons. cbv zeta.
    by rewrite Ascii.eqb_refl, Vhi, Vlo, Hback.
Qed.

Lemma decode_encode (s : string) : percent_decode (encodeURIComponent s) = s.
Proof.
  induction s as [|a s IH]; [done|]. by rewrite percent_decode_encode_cons, IH.
Qed.

(** X4. Decoding an encoded string gives the string back; the encoding
    therefore never maps two names or values to the same text. *)
Theorem percent_decode_encode (s : string) :
  percent_decode (encodeURIComponent s) = s
  ∧ ∀ t, encodeURIComponent s = encodeURIComponent t → s = t.
Proof.
  split.
  - induction s as [|a s IH]; [done|]. by rewrite percent_decode_encode_cons, IH.
  - intros t H. rewrite <- (decode_encode s), <- (decode_encode t). by rewrite H.
Qed.

(** Cutting a text at a separator. *)
Lemma split_on_cons (c a : ascii) (s : string) :
  split_on c (String a s) =
  if Ascii.eqb a c then EmptyString :: split_on c s
  else match split_on c s with
       | x :: xs => String a x :: xs
       | [] => [String a EmptyString]
       end.
Proof. reflexivity. Qed.

Lemma split_first_cons (c a : ascii) (s : string) :
  split_first c (String a s) =
  if Ascii.eqb a c then Some (EmptyString, s)
  else match split_first c s with
       | Some (x, y) => Some (String a x, y)
       | None => None
       end.
Proof. reflexivity. Qed.

Lemma split_on_without (c : ascii) (a : string) :
  contains c a = false → split_on c a = [a].
Proof.
  induction a as [|x a IH]; [done|].
  rewrite contains_cons, split_on_cons. intros [Hx Ha]%orb_false_iff.
  by rewrite Hx, (IH Ha).
Qed.

Lemma split_on_app (c : ascii) (a b : string) :
  contains c a = false → split_on c (a +:+ String c b) = a :: split_on c b.
Proof.
  induction a as [|x a IH].
  - intros _. by rewrite append_nil, split_on_cons, Ascii.eqb_refl.
  - rewrite contains_cons, append_cons, split_on_cons. intros [Hx Ha]%orb_false_iff.
    by rewrite Hx, (IH Ha).
Qed.

Lemma split_first_app (c : ascii) (a b : string) :
  contains c a = false → split_first c (a +:+ String c b) = Some (a, b).
Proof.
  induction a as [|x a IH].
  - intros _. by rewrite append_nil, split_first_cons, Ascii.eqb_refl.
  - rewrite contains_cons, append_cons, split_first_cons. intros [Hx Ha]%orb_false_iff.
    by rewrite Hx, (IH Ha).
Qed.

Lemma join_cons (sep x : string) (l : list string) :
  l ≠ [] → join sep (x :: l) = x +:+ sep +:+ join sep l.
Proof. by destruct l. Qed.

Lemma join_app (sep : string) (a b : list string) :
  a ≠ [] → b ≠ [] → join sep (a ++ b) = join sep a +:+ sep +:+ join sep b.
Proof.
  intros Ha Hb. induction a as [|x a IH]; [done|].
  destruct a as [|y a].
  - cbn [app]. by rewrite join_cons.
  - rewrite <- app_comm_cons, !join_cons by done.
    rewrite IH by done. by rewrite !append_assoc.
Qed.

Lemma split_join (segs : list string) :
  segs ≠ [] → Forall (λ s, contains "&" s = false) segs →
  split_on "&" (join "&" segs) = segs.
Proof.
  intros Hne Hall. induction Hall as [|x segs Hx Hall IH]; [done|].
  destruct segs as [|y segs].
  - by apply split_on_without.
  - rewrite join_cons by done.
    change ("&" +:+ join "&" (y :: segs)) with (String "&" (join "&" (y :: segs))).
    rewrite split_on_app by done. by rewrite IH.
Qed.

Lemma createQueryString_pieces (params : list (string * ParamValue)) :
  createQueryString params = join "&" (join "&" <$> (pieces <$> params)).
Proof.
  unfold createQueryString. f_equal. rewrite <- list_fmap_compose.
  apply list_fmap_ext. intros _ [k [v|l]] _; reflexivity.
Qed.

Lemma join_or_blank (g : list string) : join "&" (or_blank g) = join "&" g.
Proof. by destruct g. Qed.

Lemma or_blank_nonempty (g : list string) : or_blank g ≠ [].
Proof. by destruct g. Qed.

Lemma mjoin_cons {A} (a : list A) (rest : list (list A)) :
  mjoin (a :: rest) = a ++ mjoin rest.
Proof. reflexivity. Qed.

Lemma join_cons_mjoin (a : list string) (rest : list (list string)) :
  a ≠ [] → mjoin rest ≠ [] →
  join "&" (mjoin (a :: rest)) = join "&" a +:+ "&" +:+ join "&" (mjoin rest).
Proof. intros Ha Hr. cbn [mjoin list_join]. by apply join_app. Qed.

(** A list of groups joined group by group is the flat list joined, an empty
    group standing for one blank piece. *)
Lemma join_groups (groups : list (list string)) :
  groups ≠ [] →
  join "&" (join "&" <$> groups) = join "&" (mjoin (or_blank <$> groups)).
Proof.
  induction groups as [|g groups IH]; [done|]. intros _.
  destruct groups as [|g2 groups].
  - cbn. by rewrite app_nil_r, join_or_blank.
  - rewrite fmap_cons, join_cons by done. rewrite IH by done.
    rewrite (fmap_cons or_blank g), join_cons_mjoin.
    + by rewrite join_or_blank.
    + apply or_blank_nonempty.
    + cbn. destruct (or_blank g2) eqn:E; [by destruct g2|done].
Qed.

Lemma append_eq_nil (a b : string) : a +:+ b = "" → a = "" ∧ b = "".
Proof.
  destruct a as [|x a].
  - rewrite append_nil. by intros ->.
  - rewrite append_cons. discriminate.
Qed.

Lemma piece_clean (k v : string) :
  contains "&" (encodeURIComponent k +:+ "=" +:+ encodeURIComponent v) = false.
Proof.
  rewrite !contains_app, !encode_free by reflexivity. reflexivity.
Qed.

Lemma read_pair_piece (k v : string) :
  read_pair (encodeURIComponent k +:+ "=" +:+ encodeURIComponent v) = Some (k, v).
Proof.
  unfold read_pair.
  change ("=" +:+ encodeURIComponent v) with (String "=" (encodeURIComponent v)).
  destruct (String.eqb_spec (encodeURIComponent k +:+ String "=" (encodeURIComponent v)) "")
    as [He|_].
  { by apply append_eq_nil in He as [_ ?]. }
  rewrite split_first_app by (by apply encode_free).
  by rewrite !decode_encode.
Qed.

Lemma or_blank_fmap {A} (f : A → string) (l : list A) :
  l ≠ [] → or_blank (f <$> l) = f <$> l.
Proof. by destruct l. Qed.

Lemma pieces_clean (p : string * ParamValue) :
  Forall (λ s, contains "&" s = false) (or_blank (pieces p)).
Proof.
  destruct p as [k [v|l]]; unfold pieces; cbn [snd fst or_blank].
  - repeat constructor. apply piece_clean.
  - destruct l as [|x l]; [by repeat constructor|].
    rewrite or_blank_fmap by done.
    apply Forall_fmap, Forall_forall. intros val _. apply piece_clean.
Qed.

Lemma read_pieces (p : string * ParamValue) :
  omap read_pair (or_blank (pieces p)) = pairs_of [p].
Proof.
  destruct p as [k [v|l]]; unfold pieces, pairs_of; cbn [snd fst or_blank fmap list_fmap mjoin list_join].
  - cbn [omap list_omap]. by rewrite read_pair_piece.
  - rewrite app_nil_r. destruct l as [|x l]; [reflexivity|].
    rewrite or_blank_fmap by done.
    generalize (x :: l). clear x l. intros l.
    induction l as [|x l IH]; [done|].
    rewrite !fmap_cons. cbn [omap list_omap]. rewrite read_pair_piece.
    f_equal. exact IH.
Qed.

Lemma pairs_of_cons (p : string * ParamValue) (ps : list (string * ParamValue)) :
  pairs_of (p :: ps) = pairs_of [p] ++ pairs_of ps.
Proof. unfold pairs_of. cbn. by rewrite app_nil_r. Qed.

(** Cut at [&], a form body falls into the pieces of its entries. *)
Lemma split_createQueryString (params : list (string * ParamValue)) :
  params ≠ [] →
  split_on "&" (createQueryString params) = mjoin (or_blank <$> (pieces <$> params)).
Proof.
  intros Hne. rewrite createQueryString_pieces, join_groups by by destruct params.
  apply split_join.
  - destruct params as [|p ps]; [done|]. rewrite !fmap_cons, mjoin_cons.
    destruct (or_blank (pieces p)) eqn:E; [by destruct (pieces p)|done].
  - clear Hne. induction params as [|p ps IH]; [constructor|].
    rewrite !fmap_cons, mjoin_cons.
    apply Forall_app. split; [apply pieces_clean|exact IH].
Qed.

Lemma read_all_pieces (params : list (string * ParamValue)) :
  omap read_pair (mjoin (or_blank <$> (pieces <$> params))) = pairs_of params.
Proof.
  induction params as [|p ps IH]; [done|].
  rewrite !fmap_cons, mjoin_cons.
  by rewrite omap_app, read_pieces, IH, <- pairs_of_cons.
Qed.

(** X5. Read back as a form body (cut at [&], each piece cut at its first
    [=], both sides decoded), the text [createQueryString] builds gives
    exactly the entries of [data] in order, an array as one pair per
    element under the same name; an empty array leaves no pair. *)
Theorem parse_query_createQueryString (params : list (string * ParamValue)) :
  parse_query (createQueryString params) = pairs_of params.
Proof.
  destruct params as [|p ps]; [reflexivity|].
  unfold parse_query. rewrite split_createQueryString by done.
  generalize (p :: ps). clear p ps. intros params.
  induction params as [|p ps IH]; [done|].
  rewrite !fmap_cons, mjoin_cons.
  by rewrite omap_app, read_pieces, IH, <- pairs_of_cons.
Qed.

Example empty_array_leaves_a_gap :
  createQueryString [("stage", PArr ["o@x.com"]); ("viewer", PArr []); ("showID", PStr "s")]
  = "stage=o%40x.com&&showID=s".
Proof. reflexivity. Qed.

(** ** The payload *)

Lemma getQueryData_inv (X : Externals) (ev : CalendarEvent) (a : Action)
    (d : list (string * ParamValue)) :
  getQueryData X ev a = Ok d →
  ∃ p date st et showId,
    createStageAndViewers ev = Ok p
    ∧ getShowId X ev = Ok showId
    ∧ d = [ ("sessionTitle", PStr (title ev)); ("date", PStr date);
            ("startTime", PStr st); ("endTime", PStr et);
            ("timeZone", PStr (timeZone (organizer ev)));
            ("stage", PArr (stage p)); ("viewer", PArr (viewer p)) ]
          ++ match showId with
             | Some s => if String.eqb s "" then [] else [("showID", PStr s)]
             | None => []
             end.
Proof.
  unfold getQueryData.
  destruct (createStageAndViewers ev) as [p|]; [|done]. cbn.
  destruct (dayjs_format_date X _ _) as [date|]; [|done]. cbn.
  destruct (render_time X _ (startTime ev)) as [st|]; [|done]. cbn.
  destruct (render_time X _ (endTime ev)) as [et|]; [|done]. cbn.
  destruct (getShowId X ev) as [showId|]; [|done]. cbn.
  intros Hd. exists p, date, st, et, showId. split_and!; [done|done|].
  destruct showId as [s|]; [destruct (String.eqb s "")|]; by injection Hd as <-.
Qed.

(** X6. The payload names a show exactly when the event type is bound to a
    non-empty one: [showID] is the value [getShowId] finds, and it is absent
    when the event has no event type or the organizer no id (0 included),
    whatever the event-type store holds. *)
Theorem payload_show_binding (X : Externals) (ev : CalendarEvent) (a : Action)
    (d : list (string * ParamValue)) :
  getQueryData X ev a = Ok d →
  data_field "showID" d
  = match getShowId X ev with
    | Ok (Some s) => if String.eqb s "" then None else Some (PStr s)
    | _ => None
    end
  ∧ (falsy_number (eventTypeId ev) || falsy_number (id (organizer ev)) = true →
     data_field "showID" d = None).
Proof.
  intros Hd. apply getQueryData_inv in Hd as (p & date & st & et & showId & _ & Hs & ->).
  assert (Hfield : data_field "showID"
            ([ ("sessionTitle", PStr (title ev)); ("date", PStr date);
               ("startTime", PStr st); ("endTime", PStr et);
               ("timeZone", PStr (timeZone (organizer ev)));
               ("stage", PArr (stage p)); ("viewer", PArr (viewer p)) ]
             ++ match showId with
                | Some s => if String.eqb s "" then [] else [("showID", PStr s)]
                | None => []
                end)
          = match showId with
            | Some s => if String.eqb s "" then None else Some (PStr s)
            | None => None
            end).
  { destruct showId as [s|]; [destruct (String.eqb s "")|]; reflexivity. }
  rewrite Hfield, Hs. split; [done|].
  intros Hfalsy. revert Hs. unfold getShowId.
  destruct (eventTypeId ev) as [etid|], (id (organizer ev)) as [uid|];
    cbn in Hfalsy |- *; try (by intros [= <-]).
  rewrite Hfalsy. by intros [= <-].
Qed.

Lemma payload_show_binding_witness :
  let d := [ ("sessionTitle", PStr "Interview"); ("date", PStr "2024-06-01");
             ("startTime", PStr "02:30 PM"); ("endTime", PStr "03:30 PM");
             ("timeZone", PStr "Asia/Kolkata");
             ("stage", PArr ["o@x.com"; "a@x.com"; "b@x.com"]);
             ("viewer", PArr ["g@x.com"]); ("showID", PStr "show-1") ] in
  data_field "showID" d
  = match getShowId Demo.X Demo.small with
    | Ok (Some s) => if String.eqb s "" then None else Some (PStr s)
    | _ => None
    end
  ∧ (falsy_number (eventTypeId Demo.small) || falsy_number (id (organizer Demo.small)) = true →
     data_field "showID" d = None).
Proof.
  intros d. apply (payload_show_binding Demo.X Demo.small update d). reflexivity.
Defined.

(** X7. Whichever the action, the payload holds the event's title, the
    partition's stage and viewer lists and, under [timeZone], the
    organizer's zone: also for an update, whose times are rendered in UTC.
    Its first seven names are fixed and in a fixed order. *)
Theorem payload_fields (X : Externals) (ev : CalendarEvent) (a : Action)
    (d : list (string * ParamValue)) :
  getQueryData X ev a = Ok d →
  ∃ p, createStageAndViewers ev = Ok p
    ∧ take 7 d.*1
      = ["sessionTitle"; "date"; "startTime"; "endTime"; "timeZone"; "stage"; "viewer"]
    ∧ (length d ≤ 8)%nat
    ∧ data_field "sessionTitle" d = Some (PStr (title ev))
    ∧ data_field "timeZone" d = Some (PStr (timeZone (organizer ev)))
    ∧ data_field "stage" d = Some (PArr (stage p))
    ∧ data_field "viewer" d = Some (PArr (viewer p)).
Proof.
  intros Hd. apply getQueryData_inv in Hd as (p & date & st & et & showId & Hp & _ & ->).
  exists p. split; [done|].
  destruct showId as [s|]; [destruct (String.eqb s "")|]; cbn; split_and!; (done || lia).
Qed.

Lemma payload_fields_witness :
  let d := [ ("sessionTitle", PStr "Interview"); ("date", PStr "2024-06-01");
             ("startTime", PStr "02:30 PM"); ("endTime", PStr "03:30 PM");
             ("timeZone", PStr "Asia/Kolkata");
             ("stage", PArr ["o@x.com"; "a@x.com"; "b@x.com"]);
             ("viewer", PArr ["g@x.com"]); ("showID", PStr "show-1") ] in
  ∃ p, createStageAndViewers Demo.small = Ok p
    ∧ take 7 d.*1
      = ["sessionTitle"; "date"; "startTime"; "endTime"; "timeZone"; "stage"; "viewer"]
    ∧ (length d ≤ 8)%nat
    ∧ data_field "sessionTitle" d = Some (PStr (title Demo.small))
    ∧ data_field "timeZone" d = Some (PStr (timeZone (organizer Demo.small)))
    ∧ data_field "stage" d = Some (PArr (stage p))
    ∧ data_field "viewer" d = Some (PArr (viewer p)).
Proof.
  intros d. apply (payload_fields Demo.X Demo.small update d). reflexivity.
Defined.

(** ** [createMeeting] and [updateMeeting], the other outcomes *)

Lemma session_descriptor_fields (response : Response) (fields : list (string * JSON))
    (sessionID showID : string) :
  payload response = Some (JObj fields) →
  jlookup "sessionID" fields = Some (JStr sessionID) →
  jlookup "showID" fields = Some (JStr showID) →
  session_descriptor response
  = Ok {| VideoCallData.type := "squadcast_video";
          VideoCallData.id := sessionID;
          VideoCallData.password := "";
          VideoCallData.url :=
            "https://app.squadcast.fm/studio/" +:+ showID +:+ "/session/" +:+ sessionID |}.
Proof.
  intros Hp Hs Hh. unfold session_descriptor, json, parse. rewrite Hp. cbn.
  rewrite Hs, Hh. reflexivity.
Qed.

(** X8. On a 200 response whose body is an object with a string [sessionID]
    and a string [showID], whatever else it holds, [createMeeting] sends
    one POST and returns the descriptor of that session: its id, an empty
    password, the fixed type and the studio address built from the two
    identifiers. *)
Theorem createMeeting_success (X : Externals) (credential : CredentialPayload)
    (ev : CalendarEvent) (w : World) (apiKey : option string) (form : string)
    (response : Response) (fields : list (string * JSON)) (sessionID showID : string) :
  getApiKey X credential = Ok apiKey →
  getQueryString X ev create = Ok form →
  fetch_reply w (create_request apiKey form) = Resolved response →
  status response = 200 →
  payload response = Some (JObj fields) →
  jlookup "sessionID" fields = Some (JStr sessionID) →
  jlookup "showID" fields = Some (JStr showID) →
  run (createMeeting X credential ev) w
  = ([EFetch (create_request apiKey form)],
     Ok {| VideoCallData.type := "squadcast_video";
           VideoCallData.id := sessionID;
           VideoCallData.password := "";
           VideoCallData.url :=
             "https://app.squadcast.fm/studio/" +:+ showID +:+ "/session/" +:+ sessionID |}).
Proof.
  intros Hk Hf Hr Hs Hp Hsid Hshow.
  rewrite createMeeting_run, Hk, Hf. cbn. rewrite Hr, Hs. cbn.
  by rewrite (session_descriptor_fields response fields sessionID showID).
Qed.

Lemma createMeeting_success_witness :
  let form := "sessionTitle=Interview&date=2024-06-01&startTime=08%3A00%20PM&endTime=09%3A00%20PM&timeZone=Asia%2FKolkata&stage=o%40x.com&stage=a%40x.com&stage=b%40x.com&viewer=g%40x.com&showID=show-1" in
  let fields := [("sessionID", JStr "s1"); ("note", JNull); ("showID", JStr "sh")] in
  run (createMeeting Demo.X Demo.credential Demo.small) (Demo.world (Demo.replies 200 (JObj fields)))
  = ([EFetch (create_request (Some "sk_live") form)],
     Ok {| VideoCallData.type := "squadcast_video";
           VideoCallData.id := "s1";
           VideoCallData.password := "";
           VideoCallData.url := "https://app.squadcast.fm/studio/" +:+ "sh" +:+ "/session/" +:+ "s1" |}).
Proof.
  intros form fields.
  apply (createMeeting_success Demo.X Demo.credential Demo.small
           (Demo.world (Demo.replies 200 (JObj fields))) (Some "sk_live") form
           {| status := 200; payload := Some (JObj fields) |} fields "s1" "sh");
    reflexivity.
Defined.

(** X9. On a 200 response whose body is not JSON, or lacks a string
    [sessionID] or a string [showID], [createMeeting] does not fall back to
    the sentinel: after its POST it rejects, with a syntax error or a
    validation error. *)
Theorem createMeeting_malformed_body (X : Externals) (credential : CredentialPayload)
    (ev : CalendarEvent) (w : World) (apiKey : option string) (form : string)
    (response : Response) :
  getApiKey X credential = Ok apiKey →
  getQueryString X ev create = Ok form →
  fetch_reply w (create_request apiKey form) = Resolved response →
  status response = 200 →
  (payload response = None
   ∨ ∃ j, payload response = Some j
          ∧ ∀ fields s h, ¬ (j = JObj fields
                             ∧ jlookup "sessionID" fields = Some (JStr s)
                             ∧ jlookup "showID" fields = Some (JStr h))) →
  ∃ e, run (createMeeting X credential ev) w
       = ([EFetch (create_request apiKey form)], Throw e)
       ∧ (e = SyntaxError ∨ e = ZodError).
Proof.
  intros Hk Hf Hr Hs Hbad.
  rewrite createMeeting_run, Hk, Hf. cbn. rewrite Hr, Hs. cbn.
  unfold session_descriptor, json, parse.
  destruct Hbad as [->|(j & -> & Hno)]; [eauto|]. cbn.
  exists ZodError. split; [|by right].
  destruct j as [| | | | |fields]; try done. cbn.
  destruct (jlookup "sessionID" fields) as [[| | |s| |]|] eqn:E1; try done.
  destruct (jlookup "showID" fields) as [[| | |h| |]|] eqn:E2; try done.
  by destruct (Hno fields s h).
Qed.

Lemma createMeeting_malformed_body_witness :
  let form := "sessionTitle=Interview&date=2024-06-01&startTime=08%3A00%20PM&endTime=09%3A00%20PM&timeZone=Asia%2FKolkata&stage=o%40x.com&stage=a%40x.com&stage=b%40x.com&viewer=g%40x.com&showID=show-1" in
  ∃ e, run (createMeeting Demo.X Demo.credential Demo.small)
         (Demo.world (Resolved {| status := 200; payload := None |}))
       = ([EFetch (create_request (Some "sk_live") form)], Throw e)
       ∧ (e = SyntaxError ∨ e = ZodError).
Proof.
  intros form.
  apply (createMeeting_malformed_body Demo.X Demo.credential Demo.small
           (Demo.world (Resolved {| status := 200; payload := None |}))
           (Some "sk_live") form {| status := 200; payload := None |});
    [reflexivity | reflexivity | reflexivity | reflexivity | left; reflexivity].
Defined.

(** X10. A failed network call is not softened: when the fetch itself
    rejects, [createMeeting] rejects instead of returning the sentinel, and
    [updateMeeting] with a meeting identifier and [deleteMeeting] reject
    too. *)
Theorem network_failure_rejects (X : Externals) (credential : CredentialPayload)
    (ref : PartialReference) (ev : CalendarEvent) (w : World) (uid mid : string) :
  (∀ req, fetch_reply w req = Rejected) →
  meetingId ref = Some mid → mid ≠ "" →
  (∃ e, snd (run (createMeeting X credential ev) w) = Throw e)
  ∧ (∃ e, snd (run (updateMeeting X credential ref ev) w) = Throw e)
  ∧ (∃ e, snd (run (deleteMeeting X credential uid) w) = Throw e).
Proof.
  intros Hw Hmid Hne.
  rewrite createMeeting_run, deleteMeeting_run,
    (updateMeeting_run X credential w ref ev mid Hmid Hne).
  destruct (getApiKey X credential) as [apiKey|e].
  - split_and!.
    + destruct (getQueryString X ev create); cbn; rewrite ?Hw; eauto.
    + destruct (getQueryString X ev update); cbn; rewrite ?Hw; eauto.
    + cbn. rewrite Hw. eauto.
  - cbn. split_and!; by exists e.
Qed.

Lemma network_failure_rejects_witness :
  let ref := {| meetingId := Some "m1"; meetingPassword := ""; meetingUrl := "u" |} in
  (∃ e, snd (run (createMeeting Demo.X Demo.credential Demo.small) (Demo.world Rejected))
        = Throw e)
  ∧ (∃ e, snd (run (updateMeeting Demo.X Demo.credential ref Demo.small) (Demo.world Rejected))
          = Throw e)
  ∧ (∃ e, snd (run (deleteMeeting Demo.X Demo.credential "m1") (Demo.world Rejected))
          = Throw e).
Proof.
  intros ref.
  apply (network_failure_rejects Demo.X Demo.credential ref Demo.small
           (Demo.world Rejected) "m1" "m1");
    [intros req; reflexivity | reflexivity | discriminate].
Defined.

(** X11. [updateMeeting] with a meeting identifier does not look at the
    provider's answer: once its PUT to that session resolves, with any
    status and any body, it returns the identifier, password and address of
    the booking reference under the fixed type. *)
Theorem updateMeeting_ignores_response (X : Externals) (credential : CredentialPayload)
    (ref : PartialReference) (ev : CalendarEvent) (w : World) (mid form : string)
    (apiKey : option string) (response : Response) :
  meetingId ref = Some mid → mid ≠ "" →
  getApiKey X credential = Ok apiKey →
  getQueryString X ev update = Ok form →
  fetch_reply w (update_request apiKey mid form) = Resolved response →
  run (updateMeeting X credential ref ev) w
  = ([EFetch (update_request apiKey mid form)],
     Ok {| VideoCallData.type := "squadcast_video";
           VideoCallData.id := mid;
           VideoCallData.password := meetingPassword ref;
           VideoCallData.url := meetingUrl ref |})
  ∧ url (update_request apiKey mid form) = "https://api.squadcast.fm/v2/sessions/" +:+ mid
  ∧ method (update_request apiKey mid form) = PUT.
Proof.
  intros Hmid Hne Hk Hf Hr.
  rewrite (updateMeeting_run X credential w ref ev mid Hmid Hne), Hk, Hf. cbn.
  by rewrite Hr.
Qed.

Lemma updateMeeting_ignores_response_witness :
  let ref := {| meetingId := Some "m1"; meetingPassword := "pw"; meetingUrl := "u" |} in
  let form := "sessionTitle=Interview&date=2024-06-01&startTime=02%3A30%20PM&endTime=03%3A30%20PM&timeZone=Asia%2FKolkata&stage=o%40x.com&stage=a%40x.com&stage=b%40x.com&viewer=g%40x.com&showID=show-1" in
  run (updateMeeting Demo.X Demo.credential ref Demo.small)
    (Demo.world (Demo.replies 500 (JObj [("message", JStr "down")])))
  = ([EFetch (update_request (Some "sk_live") "m1" form)],
     Ok {| VideoCallData.type := "squadcast_video";
           VideoCallData.id := "m1";
           VideoCallData.password := "pw";
           VideoCallData.url := "u" |})
  ∧ url (update_request (Some "sk_live") "m1" form)
    = "https://api.squadcast.fm/v2/sessions/" +:+ "m1"
  ∧ method (update_request (Some "sk_live") "m1" form) = PUT.
Proof.
  intros ref form.
  apply (updateMeeting_ignores_response Demo.X Demo.credential ref Demo.small
           (Demo.world (Demo.replies 500 (JObj [("message", JStr "down")])))
           "m1" form (Some "sk_live")
           {| status := 500; payload := Some (JObj [("message", JStr "down")]) |});
    [reflexivity | discriminate | reflexivity | reflexivity | reflexivity].
Defined.

(** X12. Without a meeting identifier (none, or the empty string)
    [updateMeeting] returns the sentinel and does nothing else: no request
    is sent, and neither the credential nor the event is looked at, so it
    succeeds even where the key is unusable or the payload cannot be
    built. *)
Theorem updateMeeting_nothing_to_update (X : Externals) (credential : CredentialPayload)
    (ref : PartialReference) (ev : CalendarEvent) (w : World) :
  meetingId ref = None ∨ meetingId ref = Some "" →
  run (updateMeeting X credential ref ev) w = ([], Ok empty).
Proof. unfold updateMeeting. by intros [->| ->]. Qed.

Lemma updateMeeting_nothing_to_update_witness :
  run (updateMeeting Demo.X Demo.credential_without_key
         {| meetingId := Some ""; meetingPassword := "pw"; meetingUrl := "u" |}
         Demo.no_responses) (Demo.world Rejected)
  = ([], Ok empty).
Proof.
  apply (updateMeeting_nothing_to_update Demo.X Demo.credential_without_key
           {| meetingId := Some ""; meetingPassword := "pw"; meetingUrl := "u" |}
           Demo.no_responses (Demo.world Rejected)).
  right. reflexivity.
Defined.

(** ** The delete guard, in full *)

Lemma recording_element_not_object (v : JSON) :
  (∀ fields, v ≠ JObj fields) → zparse recording_element v = None.
Proof. intros H. destruct v; try reflexivity. by destruct (H fields). Qed.

Lemma valid_recording_parse (v : JSON) :
  is_Some (zparse recording_element v) ↔ valid_recording v.
Proof.
  unfold valid_recording. split.
  - intros [o Ho]. destruct v as [| | | | |fields];
      try (by rewrite recording_element_not_object in Ho).
    exists fields. split; [done|].
    unfold recording_element in Ho. rewrite recording_element_parse in Ho.
    destruct (jlookup "status" fields) as [[| | |s| |]|]; eauto;
      destruct (jlookup "recordingID" fields) as [[| | |r| |]|]; eauto; discriminate.
  - intros (fields & -> & Hf). unfold recording_element.
    rewrite recording_element_parse.
    destruct Hf as [[s ->]|[r ->]]; [done|].
    destruct (jlookup "status" fields) as [[| | |s| |]|]; done.
Qed.

Lemma recordings_schema_parse (items : list JSON) :
  zparse recordings_schema (JArr items) = JArr <$> mapM (zparse recording_element) items.
Proof. reflexivity. Qed.

Lemma canWeDelete_inv (res : Response) (b : bool) :
  canWeDelete res = Ok b ↔
  ∃ first rest o,
    payload res = Some (JArr (first :: rest))
    ∧ zparse recording_element first = Some o
    ∧ Forall valid_recording rest
    ∧ b = negb (hasOwnProperty o "recordingID").
Proof.
  unfold canWeDelete, json, parse. split.
  - destruct (payload res) as [j|]; [|done]. cbn [mbind Result_bind].
    destruct j as [| | | |items|]; try done.
    rewrite recordings_schema_parse.
    destruct (mapM (zparse recording_element) items) as [k|] eqn:Hk; [|done].
    cbn [fmap option_fmap option_map mbind Result_bind first_has_recordingID].
    destruct k as [|o k]; [done|].
    apply mapM_Some_1 in Hk. inversion Hk as [|first o' rest k' Hfirst Hrest]; subst.
    cbn [mbind Result_bind]. intros Hb. exists first, rest, o. split_and!; [done|done| |].
    + eapply Forall_impl; [|intros v; apply valid_recording_parse].
      eapply Forall2_Forall_l; [exact Hrest|]. apply Forall_true. intros y v Hv.
      by exists y.
    + by destruct (hasOwnProperty o "recordingID"); injection Hb as <-.
  - intros (first & rest & o & -> & Ho & Hrest & ->). cbn [mbind Result_bind].
    rewrite recordings_schema_parse.
    assert (is_Some (mapM (zparse recording_element) rest)) as [k Hk].
    { apply mapM_is_Some. eapply Forall_impl; [exact Hrest|].
      intros v. apply valid_recording_parse. }
    assert (mapM (zparse recording_element) (first :: rest) = Some (o :: k)) as ->.
    { apply mapM_Some_2. constructor; [done|]. by apply mapM_Some_1. }
    cbn [fmap option_fmap option_map mbind Result_bind first_has_recordingID].
    by destruct (hasOwnProperty o "recordingID").
Qed.

(** X13. The guard lets the session be deleted exactly when the recordings
    response is a list whose first element has a string [status] (whether
    or not it also names a recording) and whose other elements all pass the
    schema. *)
Theorem canWeDelete_true_iff (res : Response) :
  canWeDelete res = Ok true ↔
  ∃ fields rest s,
    payload res = Some (JArr (JObj fields :: rest))
    ∧ jlookup "status" fields = Some (JStr s)
    ∧ Forall valid_recording rest.
Proof.
  rewrite canWeDelete_inv. split.
  - intros (first & rest & o & Hp & Ho & Hrest & Hb).
    destruct first as [| | | | |fields];
      try (by rewrite recording_element_not_object in Ho).
    unfold recording_element in Ho. rewrite recording_element_parse in Ho.
    destruct (jlookup "status" fields) as [[| | |s| |]|] eqn:Hs;
      try (destruct (jlookup "recordingID" fields) as [[| | |r| |]|];
           [..|done]; try done; injection Ho as <-; done).
    by exists fields, rest, s.
  - intros (fields & rest & s & Hp & Hs & Hrest).
    exists (JObj fields), rest, (JObj [("status", JStr s)]). split_and!; [done| |done|done].
    unfold recording_element. by rewrite recording_element_parse, Hs.
Qed.

(** X14. The guard keeps the session exactly when the recordings response
    is a list whose first element has a string [recordingID] and no string
    [status], and whose other elements all pass the schema. *)
Theorem canWeDelete_false_iff (res : Response) :
  canWeDelete res = Ok false ↔
  ∃ fields rest r,
    payload res = Some (JArr (JObj fields :: rest))
    ∧ jlookup "recordingID" fields = Some (JStr r)
    ∧ (∀ s, jlookup "status" fields ≠ Some (JStr s))
    ∧ Forall valid_recording rest.
Proof.
  rewrite canWeDelete_inv. split.
  - intros (first & rest & o & Hp & Ho & Hrest & Hb).
    destruct first as [| | | | |fields];
      try (by rewrite recording_element_not_object in Ho).
    unfold recording_element in Ho. rewrite recording_element_parse in Ho.
    assert (Hstatus : ∀ s, jlookup "status" fields ≠ Some (JStr s)).
    { intros s Hs. rewrite Hs in Ho. injection Ho as <-.
      vm_compute in Hb. discriminate. }
    destruct (jlookup "recordingID" fields) as [[| | |r| |]|] eqn:Hr;
      try (by destruct (jlookup "status" fields) as [[| | |s| |]|];
              try done; destruct (Hstatus s)).
    by exists fields, rest, r.
  - intros (fields & rest & r & Hp & Hr & Hs & Hrest).
    exists (JObj fields), rest, (JObj [("recordingID", JStr r)]).
    split_and!; [done| |done|done].
    unfold recording_element. rewrite recording_element_parse, Hr.
    destruct (jlookup "status" fields) as [[| | |s| |]|]; try done. by destruct (Hs s).
Qed.

(** X15. [deleteMeeting] sends at most two requests, the recordings GET and
    then the DELETE, never the DELETE alone or first: a DELETE is sent only
    after the recordings request has resolved and the guard has allowed
    it. *)
Theorem deleteMeeting_discipline (X : Externals) (credential : CredentialPayload)
    (w : World) (uid : string) :
  let tr := fst (run (deleteMeeting X credential uid) w) in
  (requests tr = []
   ∨ ∃ apiKey, getApiKey X credential = Ok apiKey
       ∧ (requests tr = [recordings_request apiKey uid]
          ∨ requests tr = [recordings_request apiKey uid; delete_request apiKey uid]))
  ∧ (∀ r, r ∈ requests tr → method r = DELETE →
       ∃ apiKey res,
         getApiKey X credential = Ok apiKey
         ∧ fetch_reply w (recordings_request apiKey uid) = Resolved res
         ∧ canWeDelete res = Ok true
         ∧ requests tr = [recordings_request apiKey uid; delete_request apiKey uid]).
Proof.
  cbv zeta. rewrite deleteMeeting_run.
  destruct (getApiKey X credential) as [apiKey|e]; cbn.
  2: { split; [by left|]. intros r Hr. by apply elem_of_nil in Hr. }
  destruct (fetch_reply w (recordings_request apiKey uid)) as [res|] eqn:Hres; cbn.
  2: { split; [right; exists apiKey; auto|].
       intros r ->%list_elem_of_singleton. discriminate. }
  destruct (canWeDelete res) as [[|]|e] eqn:Hcan; cbn.
  - split; [right; exists apiKey; auto|]. intros r _ _. by exists apiKey, res.
  - split; [right; exists apiKey; auto|].
    intros r ->%list_elem_of_singleton. discriminate.
  - split; [right; exists apiKey; auto|].
    intros r ->%list_elem_of_singleton. discriminate.
Qed.

(** X16. The outcome of the DELETE is not looked at: once the guard has
    allowed it and the DELETE fetch resolves, [deleteMeeting] completes
    normally whatever the status of that response. *)
Theorem deleteMeeting_delete_status_ignored (X : Externals) (credential : CredentialPayload)
    (w : World) (uid : string) (apiKey : option string) (res answer : Response) :
  getApiKey X credential = Ok apiKey →
  fetch_reply w (recordings_request apiKey uid) = Resolved res →
  canWeDelete res = Ok true →
  fetch_reply w (delete_request apiKey uid) = Resolved answer →
  run (deleteMeeting X credential uid) w
  = ([EFetch (recordings_request apiKey uid); EFetch (delete_request apiKey uid)], Ok tt).
Proof.
  intros Hk Hres Hcan Hdel. rewrite deleteMeeting_run, Hk. cbn.
  by rewrite Hres, Hcan, Hdel.
Qed.

Lemma deleteMeeting_delete_status_ignored_witness :
  run (deleteMeeting Demo.X Demo.credential "m1")
    (Sample.recordings_world (JArr [JObj [("status", JStr "No recordings")]]) 500)
  = ([EFetch (recordings_request (Some "sk_live") "m1");
      EFetch (delete_request (Some "sk_live") "m1")], Ok tt).
Proof.
  apply (deleteMeeting_delete_status_ignored Demo.X Demo.credential
           (Sample.recordings_world (JArr [JObj [("status", JStr "No recordings")]]) 500)
           "m1" (Some "sk_live")
           {| status := 200;
              payload := Some (JArr [JObj [("status", JStr "No recordings")]]) |}
           {| status := 500; payload := Some JNull |});
    reflexivity.
Defined.

(** ** [getApiKey] *)

(** X17. [getApiKey] has three outcomes: undefined exactly when the stored
    key is falsy; a key exactly when the stored key is an object with a
    string [apiKey] that decrypts, under the deployment secret or the empty
    secret when none is set; and a validation error, without decrypting,
    when the stored key is truthy but has no string [apiKey]. *)
Theorem getApiKey_outcomes (X : Externals) (credential : CredentialPayload) :
  (getApiKey X credential = Ok None ↔ truthy (key credential) = false)
  ∧ (∀ k, getApiKey X credential = Ok (Some k) ↔
       ∃ fields c, key credential = JObj fields
         ∧ jlookup "apiKey" fields = Some (JStr c)
         ∧ symmetricDecrypt X c (default "" (CALENDSO_ENCRYPTION_KEY X)) = Ok k)
  ∧ (truthy (key credential) = true →
     (∀ fields c, ¬ (key credential = JObj fields
                     ∧ jlookup "apiKey" fields = Some (JStr c))) →
     getApiKey X credential = Throw ZodError).
Proof.
  unfold getApiKey, parse. split_and!.
  - split; [|by intros ->].
    destruct (truthy (key credential)); [|done]. cbn.
    destruct (key credential) as [| | | | |fields]; try done. cbn.
    destruct (jlookup "apiKey" fields) as [[| | |c| |]|]; try done. cbn.
    by destruct (symmetricDecrypt X c _).
  - intros k. split.
    + destruct (truthy (key credential)); [|done]. cbn.
      destruct (key credential) as [| | | | |fields]; try done. cbn.
      destruct (jlookup "apiKey" fields) as [[| | |c| |]|] eqn:Hc; try done. cbn.
      destruct (symmetricDecrypt X c _) eqn:Hd; [|done]. cbn.
      intros [= ->]. by exists fields, c.
    + intros (fields & c & -> & Hc & Hd). cbn. rewrite Hc. cbn. by rewrite Hd.
  - intros -> Hno. cbn.
    destruct (key credential) as [| | | | |fields]; try done. cbn.
    destruct (jlookup "apiKey" fields) as [[| | |c| |]|] eqn:Hc; try done.
    by destruct (Hno fields c).
Qed.

(** ** The install handler, path by path *)

Section install_runs.
Context (X : Externals) (w : World).

(** A POST that passes the session check and the form schema, step by
    step.  After a refused probe the 400 is out, so the later answer, 200
    or 500, throws. *)
Lemma handler_post_run (req : ApiRequest) (apiKey : string) (teamId : option Z) :
  checkSession X req = Ok tt →
  req_method req = "POST" →
  formSchema_parse (req_body req) = Ok (apiKey, teamId) →
  run (handler X req) w =
  let probed :=
    EFetch (probe_request apiKey)
    :: (if probe_accepts w apiKey then [] else [invalid_key_answer]) in
  match find_user w (session_user_id req) with
  | None => (probed, Throw (ExternalError "NotFoundError"))
  | Some user =>
      match symmetricEncrypt X apiKey (default "" (CALENDSO_ENCRYPTION_KEY X)) with
      | Throw e => (probed, Throw e)
      | Ok k =>
          let data := install_data k user teamId in
          if probe_accepts w apiKey then
            (probed ++ [ECredentialCreate data;
                        if credential_create_succeeds w data then installed_answer X
                        else store_failure_answer],
             Ok tt)
          else
            (probed ++ [ECredentialCreate data],
             Throw (ExternalError "ERR_HTTP_HEADERS_SENT"))
      end
  end.
Proof.
  intros Hs Hm Hf.
  unfold handler, findFirstOrThrow, credential_create, probe_accepts, install_data.
  io_unfold. rewrite Hs, Hm, Hf. cbn.
  destruct (fetch_reply w (probe_request apiKey)) as [r|]; cbn;
    [destruct (ok r); cbn|];
    (destruct (find_user w (session_user_id req)) as [user|]; cbn; [|done];
     destruct (symmetricEncrypt X apiKey _) as [k|e]; cbn; [|done];
     destruct (negb (falsy_number teamId)); cbn;
     by destruct (credential_create_succeeds w _)).
Qed.

(** What any run of the handler leaves in the trace. *)
Lemma handler_cases (req : ApiRequest) :
  (fst (run (handler X req) w) = [])
  ∨ (req_method req = "GET" ∧ ∃ j, run (handler X req) w = ([ERespond 200 j], Ok tt))
  ∨ (∃ apiKey teamId,
       checkSession X req = Ok tt ∧ req_method req = "POST"
       ∧ formSchema_parse (req_body req) = Ok (apiKey, teamId)).
Proof.
  destruct (checkSession X req) as [[]|e] eqn:Hs.
  2: { left. unfold handler. io_unfold. by rewrite Hs. }
  destruct (String.eqb_spec (req_method req) "GET") as [Hg|Hg].
  { right. left. split; [done|]. unfold handler. io_unfold. rewrite Hs. cbn.
    rewrite Hg. cbn. eauto. }
  destruct (String.eqb_spec (req_method req) "POST") as [Hp|Hp].
  - destruct (formSchema_parse (req_body req)) as [[apiKey teamId]|e] eqn:Hf.
    + right. right. by exists apiKey, teamId.
    + left. unfold handler. io_unfold. rewrite Hs. cbn.
      apply String.eqb_neq in Hg. rewrite Hg, Hp, Hf. done.
  - left. unfold handler. io_unfold. rewrite Hs. cbn.
    apply String.eqb_neq in Hg, Hp. by rewrite Hg, Hp.
Qed.
End install_runs.

(** X18. An install whose key the probe accepts, made by a known user, with
    a working cipher and store, does three things in order: the probe with
    the key as bearer token, the creation of the credential, the answer 200
    with the path of the installed app. *)
Theorem install_accepted_key (X : Externals) (w : World) (req : ApiRequest)
    (apiKey k : string) (teamId : option Z) (user : User) :
  checkSession X req = Ok tt →
  req_method req = "POST" →
  formSchema_parse (req_body req) = Ok (apiKey, teamId) →
  probe_accepts w apiKey = true →
  find_user w (session_user_id req) = Some user →
  symmetricEncrypt X apiKey (default "" (CALENDSO_ENCRYPTION_KEY X)) = Ok k →
  credential_create_succeeds w (install_data k user teamId) = true →
  run (handler X req) w
  = ([EFetch (probe_request apiKey);
      ECredentialCreate (install_data k user teamId);
      installed_answer X], Ok tt)
  ∧ authorization (probe_request apiKey) = "Bearer " +:+ apiKey.
Proof.
  intros Hs Hm Hf Hp Hu Hk Hc.
  rewrite (handler_post_run X w req apiKey teamId Hs Hm Hf). cbv zeta.
  by rewrite Hp, Hu, Hk, Hc.
Qed.

Lemma install_accepted_key_witness :
  run (handler Demo.X (Sample.team_install "good" 42)) (Demo.world (Demo.replies 200 (JArr [])))
  = ([EFetch (probe_request "good");
      ECredentialCreate
        (install_data "egood" {| user_email := "o@x.com"; user_id := 7 |} (Some 42));
      installed_answer Demo.X], Ok tt)
  ∧ authorization (probe_request "good") = "Bearer " +:+ "good".
Proof.
  apply (install_accepted_key Demo.X (Demo.world (Demo.replies 200 (JArr [])))
           (Sample.team_install "good" 42) "good" "egood" (Some 42)
           {| user_email := "o@x.com"; user_id := 7 |});
    reflexivity.
Defined.

Lemma stored_probed (w : World) (apiKey : string) (rest : list Event) :
  stored ((EFetch (probe_request apiKey)
           :: (if probe_accepts w apiKey then [] else [invalid_key_answer])) ++ rest)
  = stored rest.
Proof. by destruct (probe_accepts w apiKey). Qed.

Lemma stored_probed_only (w : World) (apiKey : string) :
  stored (EFetch (probe_request apiKey)
          :: (if probe_accepts w apiKey then [] else [invalid_key_answer]))
  = [].
Proof. by destruct (probe_accepts w apiKey). Qed.

(** X19. Whatever the request, the handler stores at most one credential,
    and only for a POST with a valid form by a known user.  What it stores
    holds the key as the cipher returned it, is marked valid, and belongs to
    the team, with no user, when the form names a non-zero [teamId], and to
    the signed-in user, with no team, when the form has no [teamId] or the
    [teamId] 0. *)
Theorem install_credential_owner (X : Externals) (w : World) (req : ApiRequest)
    (data : CredentialData) :
  data ∈ stored (fst (run (handler X req) w)) →
  ∃ apiKey teamId user k,
    req_method req = "POST"
    ∧ formSchema_parse (req_body req) = Ok (apiKey, teamId)
    ∧ find_user w (session_user_id req) = Some user
    ∧ symmetricEncrypt X apiKey (default "" (CALENDSO_ENCRYPTION_KEY X)) = Ok k
    ∧ stored (fst (run (handler X req) w)) = [data]
    ∧ cd_key_apiKey data = k
    ∧ cd_type data = "squadcast_video" ∧ cd_appId data = "squadcast"
    ∧ cd_invalid data = false
    ∧ (∀ n, teamId = Some n → n ≠ 0 →
         cd_userId data = None ∧ cd_teamId data = Some n)
    ∧ (teamId = None ∨ teamId = Some 0 →
         cd_userId data = Some (user_id user) ∧ cd_teamId data = None).
Proof.
  intros Hin.
  destruct (handler_cases X w req) as [Hnil|[(_ & j & Hget)|(apiKey & teamId & Hs & Hm & Hf)]].
  - rewrite Hnil in Hin. by apply elem_of_nil in Hin.
  - rewrite Hget in Hin. by apply elem_of_nil in Hin.
  - rewrite (handler_post_run X w req apiKey teamId Hs Hm Hf) in Hin |- *.
    cbv zeta in Hin |- *.
    destruct (find_user w (session_user_id req)) as [user|] eqn:Hu.
    2: { cbn [fst] in Hin. rewrite stored_probed_only in Hin.
         by apply elem_of_nil in Hin. }
    destruct (symmetricEncrypt X apiKey _) as [k|e] eqn:Hk.
    2: { cbn [fst] in Hin. rewrite stored_probed_only in Hin.
         by apply elem_of_nil in Hin. }
    assert (Hst : stored
                    (if probe_accepts w apiKey then
                       ((EFetch (probe_request apiKey)
                         :: (if probe_accepts w apiKey then [] else [invalid_key_answer]))
                        ++ [ECredentialCreate (install_data k user teamId);
                            if credential_create_succeeds w (install_data k user teamId)
                            then installed_answer X else store_failure_answer],
                        Ok tt)
                     else
                       ((EFetch (probe_request apiKey)
                         :: (if probe_accepts w apiKey then [] else [invalid_key_answer]))
                        ++ [ECredentialCreate (install_data k user teamId)],
                        Throw (ExternalError "ERR_HTTP_HEADERS_SENT"))).1
                  = [install_data k user teamId]).
    { destruct (probe_accepts w apiKey); [|done].
      by destruct (credential_create_succeeds w _). }
    rewrite Hst in Hin |- *. apply list_elem_of_singleton in Hin as ->.
    exists apiKey, teamId, user, k. unfold install_data.
    destruct teamId as [n|]; [destruct (Z.eqb_spec n 0) as [->|Hn]|]; cbn.
    + split_and!; naive_solver.
    + apply Z.eqb_neq in Hn as Hn'. rewrite Hn'. cbn. split_and!; naive_solver.
    + split_and!; naive_solver.
Qed.

Lemma install_credential_owner_witness :
  let data := install_data "egood" {| user_email := "o@x.com"; user_id := 7 |} (Some 0) in
  let run_ := run (handler Demo.X (Sample.team_install "good" 0))
                (Demo.world (Demo.replies 200 (JArr []))) in
  ∃ apiKey teamId user k,
    req_method (Sample.team_install "good" 0) = "POST"
    ∧ formSchema_parse (req_body (Sample.team_install "good" 0)) = Ok (apiKey, teamId)
    ∧ find_user (Demo.world (Demo.replies 200 (JArr [])))
        (session_user_id (Sample.team_install "good" 0)) = Some user
    ∧ symmetricEncrypt Demo.X apiKey (default "" (CALENDSO_ENCRYPTION_KEY Demo.X)) = Ok k
    ∧ stored (fst run_) = [data]
    ∧ cd_key_apiKey data = k
    ∧ cd_type data = "squadcast_video" ∧ cd_appId data = "squadcast"
    ∧ cd_invalid data = false
    ∧ (∀ n, teamId = Some n → n ≠ 0 →
         cd_userId data = None ∧ cd_teamId data = Some n)
    ∧ (teamId = None ∨ teamId = Some 0 →
         cd_userId data = Some (user_id user) ∧ cd_teamId data = None).
Proof.
  intros data run_.
  apply (install_credential_owner Demo.X (Demo.world (Demo.replies 200 (JArr [])))
           (Sample.team_install "good" 0) data).
  vm_compute. constructor.
Defined.

(** X20. When the store refuses the credential, no success answer is sent.
    After an accepted probe the handler answers 500 with its own message,
    as its only answer and last action, and completes.  After a refused
    probe the 400 is already out: it stays the only answer, the 500 cannot
    be sent and the handler rejects. *)
Theorem install_store_failure (X : Externals) (w : World) (req : ApiRequest)
    (apiKey k : string) (teamId : option Z) (user : User) :
  checkSession X req = Ok tt →
  req_method req = "POST" →
  formSchema_parse (req_body req) = Ok (apiKey, teamId) →
  find_user w (session_user_id req) = Some user →
  symmetricEncrypt X apiKey (default "" (CALENDSO_ENCRYPTION_KEY X)) = Ok k →
  credential_create_succeeds w (install_data k user teamId) = false →
  (∀ j, (200, j) ∉ answers (fst (run (handler X req) w)))
  ∧ (probe_accepts w apiKey = true →
     snd (run (handler X req) w) = Ok tt
     ∧ answers (fst (run (handler X req) w))
       = [(500, JObj [("message", JStr "Could not add this SquadCast account")])]
     ∧ last (fst (run (handler X req) w)) = Some store_failure_answer)
  ∧ (probe_accepts w apiKey = false →
     snd (run (handler X req) w) = Throw (ExternalError "ERR_HTTP_HEADERS_SENT")
     ∧ answers (fst (run (handler X req) w))
       = [(400, JObj [("message", JStr "Invalid API key")])]).
Proof.
  intros Hs Hm Hf Hu Hk Hc.
  rewrite (handler_post_run X w req apiKey teamId Hs Hm Hf). cbv zeta.
  rewrite Hu, Hk, Hc.
  destruct (probe_accepts w apiKey); cbn.
  - split_and!; [|done..]. intros j Hj. apply list_elem_of_singleton in Hj. discriminate.
  - split_and!; [|done..]. intros j Hj. apply list_elem_of_singleton in Hj. discriminate.
Qed.

Lemma install_store_failure_witness :
  let w := Sample.failing_store (Demo.replies 200 (JArr [])) in
  let r := run (handler Demo.X (Demo.install_request "good")) w in
  (∀ j, (200, j) ∉ answers (fst r))
  ∧ (probe_accepts w "good" = true →
     snd r = Ok tt
     ∧ answers (fst r)
       = [(500, JObj [("message", JStr "Could not add this SquadCast account")])]
     ∧ last (fst r) = Some store_failure_answer)
  ∧ (probe_accepts w "good" = false →
     snd r = Throw (ExternalError "ERR_HTTP_HEADERS_SENT")
     ∧ answers (fst r) = [(400, JObj [("message", JStr "Invalid API key")])]).
Proof.
  intros w r.
  apply (install_store_failure Demo.X w (Demo.install_request "good") "good" "egood" None
           {| user_email := "o@x.com"; user_id := 7 |});
    reflexivity.
Defined.

(** After a refused probe the store's refusal cannot be reported. *)
Example store_failure_after_refused_probe :
  run (handler Demo.X (Demo.install_request "bad"))
    (Sample.failing_store (Demo.replies 401 JNull))
  = ([EFetch (probe_request "bad"); invalid_key_answer;
      ECredentialCreate
        (install_data "ebad" {| user_email := "o@x.com"; user_id := 7 |} None)],
     Throw (ExternalError "ERR_HTTP_HEADERS_SENT")).
Proof. reflexivity. Qed.

(** X21. The handler leaves three kinds of request unanswered, and for none
    of them contacts the provider or the store: a request that fails the
    session check and a POST whose form lacks a string [apiKey] or has a
    [teamId] that is not a number are rejected with the error raised, and a
    request with a method other than GET and POST completes with nothing
    done. *)
Theorem install_unanswered (X : Externals) (w : World) (req : ApiRequest) :
  (∀ e, checkSession X req = Throw e → run (handler X req) w = ([], Throw e))
  ∧ (checkSession X req = Ok tt → req_method req = "POST" →
     body_apiKey (req_body req) = None ∨ body_teamId (req_body req) = TeamIdNaN →
     run (handler X req) w = ([], Throw ZodError))
  ∧ (checkSession X req = Ok tt → req_method req ≠ "GET" → req_method req ≠ "POST" →
     run (handler X req) w = ([], Ok tt)).
Proof.
  split_and!.
  - intros e Hs. unfold handler. io_unfold. by rewrite Hs.
  - intros Hs Hm Hbad. unfold handler. io_unfold. rewrite Hs, Hm. cbn.
    assert (formSchema_parse (req_body req) = Throw ZodError) as ->; [|done].
    unfold formSchema_parse. destruct Hbad as [-> | ->]; [done|].
    by destruct (body_apiKey (req_body req)).
  - intros Hs Hg Hp. unfold handler. io_unfold. rewrite Hs. cbn.
    apply String.eqb_neq in Hg, Hp. by rewrite Hg, Hp.
Qed.

(** X22. A GET that passes the session check is answered 200 with the path
    of the setup page, which carries the [teamId] of the query when there is
    a non-empty one; the provider is not contacted and nothing is stored. *)
Theorem install_setup_redirect (X : Externals) (w : World) (req : ApiRequest) :
  checkSession X req = Ok tt →
  req_method req = "GET" →
  run (handler X req) w
  = ([ERespond 200
        (JObj [("url",
                JStr ("/apps/squadcast/setup" +:+
                      match query_teamId req with
                      | Some t => if String.eqb t "" then "" else "?teamId=" +:+ t
                      | None => ""
                      end))])],
     Ok tt).
Proof.
  intros Hs Hm. unfold handler. io_unfold. rewrite Hs, Hm. cbn.
  destruct (query_teamId req) as [t|]; [|done]. cbn. by destruct (String.eqb t "").
Qed.

Lemma install_setup_redirect_witness :
  run (handler Demo.X (Sample.shows_get (Some 7) (Some "42"))) (Demo.world Rejected)
  = ([ERespond 200
        (JObj [("url", JStr ("/apps/squadcast/setup" +:+
                             (if String.eqb "42" "" then "" else "?teamId=" +:+ "42")))])],
     Ok tt).
Proof.
  apply (install_setup_redirect Demo.X (Demo.world Rejected)
           (Sample.shows_get (Some 7) (Some "42"))); reflexivity.
Defined.

(** ** The shows handler *)

Section shows_runs.
Context (X : Externals) (S : ShowsEnv) (w : World).

Lemma list_shows_run (cred : CredentialPayload) :
  list_shows X cred w [] =
  match stored_token X cred with
  | Throw e => ([], Throw e)
  | Ok token =>
      match fetch_reply w (shows_request token) with
      | Rejected => ([EFetch (shows_request token)], Throw FetchError)
      | Resolved fetched =>
          if ok fetched then
            match shows_of_response fetched with
            | Ok m => ([EFetch (shows_request token); ERespond 200 (shows_json m)], Ok tt)
            | Throw e => ([EFetch (shows_request token)], Throw e)
            end
          else
            ([EFetch (shows_request token);
              answer 500 (JStr "Could not fetch data from Squadcast")], Ok tt)
      end
  end.
Proof.
  unfold list_shows, stored_token, shows_of_response. io_unfold.
  destruct (parse _ (key cred)) as [o|e]; [|done]. cbn.
  destruct (field_string o "apiKey") as [apiKey|e]; [|done]. cbn.
  destruct (symmetricDecrypt X apiKey _) as [token|e]; [|done]. cbn.
  destruct (fetch_reply w (shows_request token)) as [fetched|]; [|done].
  destruct (ok fetched); cbn; [|done].
  destruct (json fetched) as [data|e]; [|done]. cbn.
  destruct (parse showsSchema data) as [shows|e]; [|done]. cbn.
  by destruct (match shows with JArr items => show_entries items | _ => Throw TypeError end)
    as [entries|e].
Qed.

(** The handler as a whole: what is sent and what is answered. *)
Lemma shows_handler_run (req : ApiRequest) :
  run (shows_handler X S req) w =
  if negb (String.eqb (req_method req) "GET") then
    ([answer 500 (error_json S (PlainError "Invalid method"))], Ok tt)
  else
    match session_user_id req with
    | None => ([answer 401 (JStr "You must be logged in to do this")], Ok tt)
    | Some uid =>
        if uid =? 0 then ([answer 401 (JStr "You must be logged in to do this")], Ok tt)
        else
          match getCred S req uid with
          | Throw e => ([answer 500 (error_json S e)], Ok tt)
          | Ok None => ([answer 403 (JStr "You must install the app first")], Ok tt)
          | Ok (Some cred) =>
              match list_shows X cred w [] with
              | (tr, Ok _) => (tr, Ok tt)
              | (tr, Throw e) => (tr ++ [answer 500 (error_json S e)], Ok tt)
              end
          end
    end.
Proof.
  unfold shows_handler. unfold run, catch.
  destruct (negb (String.eqb (req_method req) "GET")); [done|].
  destruct (session_user_id req) as [uid|]; [|done]. cbn [falsy_number].
  destruct (uid =? 0); [done|].
  unfold mbind, IO_bind, lift.
  destruct (getCred S req uid) as [[cred|]|e]; [|done|done].
  rewrite list_shows_run.
  destruct (stored_token X cred) as [token|e]; [|done].
  destruct (fetch_reply w (shows_request token)) as [fetched|]; [|done].
  destruct (ok fetched); [|done].
  by destruct (shows_of_response fetched) as [m|e].
Qed.
End shows_runs.

(** X23. The shows handler never rejects and never stays silent: whatever
    the request, it completes after exactly one answer, sent last, with
    status 200, 401, 403 or 500, and after at most one provider request. *)
Theorem shows_always_answers (X : Externals) (S : ShowsEnv) (w : World) (req : ApiRequest) :
  let r := run (shows_handler X S req) w in
  snd r = Ok tt
  ∧ (length (requests (fst r)) ≤ 1)%nat
  ∧ ∃ code j, answers (fst r) = [(code, j)]
      ∧ last (fst r) = Some (ERespond code j)
      ∧ code ∈ [200; 401; 403; 500].
Proof.
  cbv zeta. rewrite shows_handler_run.
  destruct (negb (String.eqb (req_method req) "GET")).
  { cbn. split_and!; [done|lia|]. eexists 500, _. split_and!; [done|done|set_solver]. }
  destruct (session_user_id req) as [uid|].
  2: { cbn. split_and!; [done|lia|]. eexists 401, _. split_and!; [done|done|set_solver]. }
  destruct (uid =? 0).
  { cbn. split_and!; [done|lia|]. eexists 401, _. split_and!; [done|done|set_solver]. }
  destruct (getCred S req uid) as [[cred|]|e].
  2: { cbn. split_and!; [done|lia|]. eexists 403, _. split_and!; [done|done|set_solver]. }
  2: { cbn. split_and!; [done|lia|]. eexists 500, _. split_and!; [done|done|set_solver]. }
  rewrite list_shows_run.
  destruct (stored_token X cred) as [token|e].
  2: { cbn. split_and!; [done|lia|]. eexists 500, _. split_and!; [done|done|set_solver]. }
  destruct (fetch_reply w (shows_request token)) as [fetched|].
  2: { cbn. split_and!; [done|lia|]. eexists 500, _. split_and!; [done|done|set_solver]. }
  destruct (ok fetched).
  2: { cbn. split_and!; [done|lia|]. eexists 500, _. split_and!; [done|done|set_solver]. }
  destruct (shows_of_response fetched) as [m|e].
  - cbn. split_and!; [done|lia|]. eexists 200, _. split_and!; [done|done|set_solver].
  - cbn. split_and!; [done|lia|]. eexists 500, _. split_and!; [done|done|set_solver].
Qed.

(** X24. The answer is 200 exactly on the full path: a GET by a signed-in
    user for whom the selected credential exists, holds a key that
    decrypts, and whose shows request gets a success response with a valid
    list; the body is then the list of shows built from that response. *)
Theorem shows_success_iff (X : Externals) (S : ShowsEnv) (w : World) (req : ApiRequest)
    (j : JSON) :
  (200, j) ∈ answers (fst (run (shows_handler X S req) w)) ↔
  ∃ uid cred token fetched m,
    req_method req = "GET"
    ∧ session_user_id req = Some uid ∧ uid ≠ 0
    ∧ getCred S req uid = Ok (Some cred)
    ∧ stored_token X cred = Ok token
    ∧ fetch_reply w (shows_request token) = Resolved fetched
    ∧ ok fetched = true
    ∧ shows_of_response fetched = Ok m
    ∧ j = shows_json m.
Proof.
  rewrite shows_handler_run. split.
  - destruct (String.eqb_spec (req_method req) "GET") as [Hm|Hm]; cbn [negb];
      [|cbn; set_solver].
    destruct (session_user_id req) as [uid|] eqn:Hid; [|cbn; set_solver].
    destruct (Z.eqb_spec uid 0) as [|Hu]; [cbn; set_solver|].
    destruct (getCred S req uid) as [[cred|]|e] eqn:Hc; [|cbn; set_solver..].
    rewrite list_shows_run.
    destruct (stored_token X cred) as [token|e] eqn:Htok; [|cbn; set_solver].
    destruct (fetch_reply w (shows_request token)) as [fetched|] eqn:Hf; [|cbn; set_solver].
    destruct (ok fetched) eqn:Hok; [|cbn; set_solver].
    destruct (shows_of_response fetched) as [m|e] eqn:Hshows; [|cbn; set_solver].
    cbn. intros Hin%list_elem_of_singleton. injection Hin as ->.
    by exists uid, cred, token, fetched, m.
  - intros (uid & cred & token & fetched & m & -> & -> & Hu & -> & Htok & Hf & Hok & Hm & ->).
    apply Z.eqb_neq in Hu. rewrite Hu. cbn [negb String.eqb].
    rewrite list_shows_run, Htok, Hf, Hok, Hm. cbn. set_solver.
Qed.

(** X25. The provider is contacted only for a GET by a signed-in user whose
    selected credential is found and holds a key that decrypts, and only
    with the shows request that carries that decrypted key as bearer
    token. *)
Theorem shows_request_guarded (X : Externals) (S : ShowsEnv) (w : World) (req : ApiRequest)
    (r : Request) :
  r ∈ requests (fst (run (shows_handler X S req) w)) →
  ∃ uid cred token,
    req_method req = "GET"
    ∧ session_user_id req = Some uid ∧ uid ≠ 0
    ∧ getCred S req uid = Ok (Some cred)
    ∧ stored_token X cred = Ok token
    ∧ r = shows_request token
    ∧ authorization r = "Bearer " +:+ token.
Proof.
  rewrite shows_handler_run.
  destruct (String.eqb_spec (req_method req) "GET") as [Hm|Hm]; cbn [negb];
    [|cbn; set_solver].
  destruct (session_user_id req) as [uid|] eqn:Hid; [|cbn; set_solver].
  destruct (Z.eqb_spec uid 0) as [|Hu]; [cbn; set_solver|].
  destruct (getCred S req uid) as [[cred|]|e] eqn:Hc; [|cbn; set_solver..].
  rewrite list_shows_run.
  destruct (stored_token X cred) as [token|e] eqn:Htok; [|cbn; set_solver].
  assert (r ∈ [shows_request token] →
          ∃ uid0 cred0 token0, req_method req = "GET"
            ∧ Some uid = Some uid0 ∧ uid0 ≠ 0
            ∧ getCred S req uid0 = Ok (Some cred0)
            ∧ stored_token X cred0 = Ok token0 ∧ r = shows_request token0
            ∧ authorization r = "Bearer " +:+ token0) as Hone.
  { intros ->%list_elem_of_singleton. by exists uid, cred, token. }
  destruct (fetch_reply w (shows_request token)) as [fetched|]; [|exact Hone].
  destruct (ok fetched); [|exact Hone].
  destruct (shows_of_response fetched) as [m|e]; exact Hone.
Qed.

Lemma shows_request_guarded_witness :
  ∃ uid cred token,
    req_method (Sample.shows_get (Some 7) None) = "GET"
    ∧ session_user_id (Sample.shows_get (Some 7) None) = Some uid ∧ uid ≠ 0
    ∧ getCred Sample.shows_env (Sample.shows_get (Some 7) None) uid = Ok (Some cred)
    ∧ stored_token Demo.X cred = Ok token
    ∧ shows_request "sk_live" = shows_request token
    ∧ authorization (shows_request "sk_live") = "Bearer " +:+ token.
Proof.
  apply (shows_request_guarded Demo.X Sample.shows_env
           (Demo.world (Demo.replies 200 Sample.shows_body))
           (Sample.shows_get (Some 7) None) (shows_request "sk_live")).
  vm_compute. constructor.
Defined.

(** X26. With a non-empty [teamId] in the query only the team's credential
    counts: the user's own credentials play no part in the outcome; without
    one, only the user's do. *)
Theorem shows_credential_choice (X : Externals) (S S' : ShowsEnv) (w : World)
    (req : ApiRequest) :
  error_json S = error_json S' →
  (truthy_string (query_teamId req) = true →
   find_team_credential S = find_team_credential S' →
   run (shows_handler X S req) w = run (shows_handler X S' req) w)
  ∧ (truthy_string (query_teamId req) = false →
     find_user_credential S = find_user_credential S' →
     run (shows_handler X S req) w = run (shows_handler X S' req) w).
Proof.
  intros He. split; intros Ht Hc; rewrite !shows_handler_run; unfold getCred;
    rewrite Ht, He, Hc; reflexivity.
Qed.

Lemma shows_credential_choice_witness :
  let S' := {| find_team_credential := find_team_credential Sample.shows_env;
               find_user_credential := λ _, Ok None;
               error_json := error_json Sample.shows_env |} in
  let req := Sample.shows_get (Some 7) (Some "42") in
  let w := Demo.world (Demo.replies 200 Sample.shows_body) in
  (truthy_string (query_teamId req) = true →
   find_team_credential Sample.shows_env = find_team_credential S' →
   run (shows_handler Demo.X Sample.shows_env req) w = run (shows_handler Demo.X S' req) w)
  ∧ (truthy_string (query_teamId req) = false →
     find_user_credential Sample.shows_env = find_user_credential S' →
     run (shows_handler Demo.X Sample.shows_env req) w = run (shows_handler Demo.X S' req) w).
Proof.
  intros S' req w. apply (shows_credential_choice Demo.X Sample.shows_env S' w req).
  reflexivity.
Defined.

(** ** The map of shows *)

Lemma map_get_set (m : list (string * string)) (k v k' : string) :
  map_get (map_set m k v) k' = if String.eqb k' k then Some v else map_get m k'.
Proof.
  induction m as [|[k0 v0] m IH]; cbn [map_set map_get].
  - done.
  - destruct (String.eqb_spec k k0) as [->|Hk]; cbn [map_get].
    + by destruct (String.eqb_spec k' k0).
    + rewrite IH. destruct (String.eqb_spec k' k0) as [->|]; [|done].
      by rewrite (proj2 (String.eqb_neq k0 k)).
Qed.

Lemma map_set_keys (m : list (string * string)) (k v : string) :
  (map_set m k v).*1 = if decide (k ∈ m.*1) then m.*1 else m.*1 ++ [k].
Proof.
  induction m as [|[k0 v0] m IH]; cbn [map_set].
  - by rewrite decide_False by apply not_elem_of_nil.
  - destruct (String.eqb_spec k k0) as [->|Hk].
    + cbn. rewrite decide_True; [done|]. apply list_elem_of_here.
    + rewrite fmap_cons, IH. cbn [fmap list_fmap fst].
      destruct (decide (k ∈ m.*1)) as [Hin|Hout].
      * rewrite decide_True; [done|]. by apply list_elem_of_further.
      * rewrite decide_False; [done|]. rewrite elem_of_cons. naive_solver.
Qed.

Lemma map_get_snoc (l : list (string * string)) (e : string * string) (k : string) :
  map_get (l ++ [e]) k
  = match map_get l k with
    | Some v => Some v
    | None => if String.eqb k e.1 then Some e.2 else None
    end.
Proof.
  induction l as [|[k0 v0] l IH]; cbn [app map_get].
  - by destruct e.
  - by destruct (String.eqb k k0).
Qed.

Lemma showMap_fold (entries m : list (string * string)) :
  let r := foldl (λ m e, map_set m e.1 e.2) m entries in
  (NoDup m.*1 → NoDup r.*1)
  ∧ (∀ k, k ∈ r.*1 ↔ k ∈ m.*1 ∨ k ∈ entries.*1)
  ∧ (∀ k, map_get r k = match map_get (reverse entries) k with
                        | Some v => Some v
                        | None => map_get m k
                        end).
Proof.
  revert m. induction entries as [|e entries IH]; intros m; cbv zeta.
  - cbn. split_and!; [done| |done]. intros k. rewrite elem_of_nil. tauto.
  - cbn [foldl]. destruct (IH (map_set m e.1 e.2)) as (Hnd & Hkeys & Hget).
    split_and!.
    + intros Hm. apply Hnd. rewrite map_set_keys.
      destruct (decide (e.1 ∈ m.*1)); [done|].
      apply NoDup_app. split_and!; [done| |apply NoDup_singleton].
      intros x Hx ->%list_elem_of_singleton. done.
    + intros k. rewrite Hkeys, map_set_keys, fmap_cons, elem_of_cons.
      destruct (decide (e.1 ∈ m.*1)).
      * naive_solver.
      * rewrite elem_of_app, list_elem_of_singleton. naive_solver.
    + intros k. rewrite Hget, reverse_cons, map_get_snoc, map_get_set.
      destruct (map_get (reverse entries) k); [done|]. by destruct (String.eqb k e.1).
Qed.

(** X27. In the answer every show id appears once, however often the
    provider lists it: the ids of the map are those of the validated list
    without repetition, and each id carries the name of its last listing. *)
Theorem showMap_of_spec (entries : list (string * string)) :
  NoDup (showMap_of entries).*1
  ∧ (∀ k, k ∈ (showMap_of entries).*1 ↔ k ∈ entries.*1)
  ∧ (∀ k, map_get (showMap_of entries) k = map_get (reverse entries) k).
Proof.
  unfold showMap_of. destruct (showMap_fold entries []) as (Hnd & Hkeys & Hget).
  split_and!.
  - apply Hnd. constructor.
  - intros k. rewrite Hkeys. cbn. rewrite elem_of_nil. tauto.
  - intros k. rewrite Hget. by destruct (map_get (reverse entries) k).
Qed.

Example shows_listed_once :
  run (shows_handler Demo.X Sample.shows_env (Sample.shows_get (Some 7) None))
    (Demo.world (Demo.replies 200 Sample.shows_body))
  = ([EFetch (shows_request "sk_live");
      ERespond 200
        (JObj [("shows", JArr [JArr [JStr "s1"; JStr "Morning (renamed)"];
                               JArr [JStr "s2"; JStr "Evening"]])])],
     Ok tt).
Proof. reflexivity. Qed.

Lemma show_item_parse (v : JSON) (e : string * string) :
  lists_show v e →
  ∃ o, zparse (ZObject [("showID", ZString);
                        ("showDetails", ZObject [("showName", ZString)])]) v = Some o
       ∧ show_entry o = Ok e.
Proof.
  intros (fields & details & -> & Hid & Hd & Hn). destruct e as [i n]. cbn in *.
  rewrite Hid, Hd. cbn. rewrite Hn. cbn. eauto.
Qed.

(** X28. A success response whose body is a list in which every element
    lists a show (other fields are ignored) gives the map of exactly those
    shows, in the order of the list. *)
Theorem shows_of_response_items (fetched : Response) (items : list JSON)
    (entries : list (string * string)) :
  payload fetched = Some (JArr items) →
  Forall2 lists_show items entries →
  shows_of_response fetched = Ok (showMap_of entries).
Proof.
  intros Hp Hall. unfold shows_of_response, json, parse. rewrite Hp.
  cbn [mbind Result_bind].
  change (zparse showsSchema (JArr items))
    with (JArr <$> mapM (zparse (ZObject [("showID", ZString);
                                          ("showDetails", ZObject [("showName", ZString)])]))
                     items).
  assert (∃ os, mapM (zparse (ZObject [("showID", ZString);
                                       ("showDetails", ZObject [("showName", ZString)])]))
                  items = Some os
                ∧ show_entries os = Ok entries) as (os & -> & Hos).
  { clear Hp. induction Hall as [|v e items entries Hv Hall IH].
    - by exists [].
    - destruct IH as (os & Hos & Hes).
      destruct (show_item_parse v e Hv) as (o & Ho & He).
      exists (o :: os). split.
      + apply mapM_Some_2. constructor; [done|]. by apply mapM_Some_1.
      + cbn [show_entries]. rewrite He. cbn [mbind Result_bind]. by rewrite Hes. }
  cbn [fmap option_fmap option_map mbind Result_bind]. by rewrite Hos.
Qed.

Lemma shows_of_response_items_witness :
  shows_of_response {| status := 200; payload := Some Sample.shows_body |}
  = Ok (showMap_of [("s1", "Morning"); ("s2", "Evening"); ("s1", "Morning (renamed)")]).
Proof.
  apply (shows_of_response_items
           {| status := 200; payload := Some Sample.shows_body |}
           [Sample.show "s1" "Morning"; Sample.show "s2" "Evening";
            Sample.show "s1" "Morning (renamed)"]
           [("s1", "Morning"); ("s2", "Evening"); ("s1", "Morning (renamed)")]).
  - reflexivity.
  - repeat constructor; eexists _, _; repeat split.
Defined.

(** ** An unknown zone *)

(** X29. When the organizer's zone is one [Intl] does not know, the payload
    for a create cannot be built: [createMeeting] rejects before any
    request.  The payload for an update renders in UTC and does not depend
    on that zone being known. *)
Theorem unknown_zone_fails_create (X : Externals) (credential : CredentialPayload)
    (ev : CalendarEvent) (w : World) :
  zone_offset X (timeZone (organizer ev)) (startTime ev) = None →
  (∃ e, getQueryString X ev create = Throw e)
  ∧ (∃ e, run (createMeeting X credential ev) w = ([], Throw e))
  ∧ (∀ p date showId,
       createStageAndViewers ev = Ok p →
       dayjs_format_date X "UTC" (startTime ev) = Ok date →
       getShowId X ev = Ok showId →
       ∃ form, getQueryString X ev update = Ok form).
Proof.
  intros Hz.
  assert (∃ e, getQueryString X ev create = Throw e) as [e He].
  { unfold getQueryString, getQueryData. cbn [action_tz].
    destruct (createStageAndViewers ev) as [p|]; [|by eauto]. cbn [mbind Result_bind].
    destruct (dayjs_format_date X _ _) as [date|]; [|by eauto]. cbn [mbind Result_bind].
    assert (render_time X (timeZone (organizer ev)) (startTime ev) = Throw RangeError)
      as -> by (unfold render_time; by rewrite Hz).
    cbn [mbind Result_bind]. eauto. }
  split_and!.
  - by exists e.
  - rewrite createMeeting_run, He. destruct (getApiKey X credential); eauto.
  - intros p date showId Hp Hd Hs. unfold getQueryString, getQueryData.
    cbn [action_tz]. rewrite Hp. cbn. rewrite Hd. cbn.
    unfold render_time, zone_offset. cbn. rewrite Hs. cbn.
    destruct showId as [s|]; [destruct (String.eqb s "")|]; cbn; eauto.
Qed.

Lemma unknown_zone_fails_create_witness :
  let ev := Demo.booking (Demo.person "o@x.com" "Mars/Olympus") ["a@x.com"] [] None
              (Demo.guest_responses []) in
  (∃ e, getQueryString Demo.X ev create = Throw e)
  ∧ (∃ e, run (createMeeting Demo.X Demo.credential ev) (Demo.world Rejected) = ([], Throw e))
  ∧ (∀ p date showId,
       createStageAndViewers ev = Ok p →
       dayjs_format_date Demo.X "UTC" (startTime ev) = Ok date →
       getShowId Demo.X ev = Ok showId →
       ∃ form, getQueryString Demo.X ev update = Ok form).
Proof.
  intros ev. apply (unknown_zone_fails_create Demo.X Demo.credential ev (Demo.world Rejected)).
  reflexivity.
Defined.

(** ** C7: the times in the bodies sent *)

Lemma split_query_pairs (params : list (string * ParamValue)) (k : string) :
  map_get (parse_query (createQueryString params)) k = map_get (pairs_of params) k.
Proof.
  destruct params as [|p ps]; [reflexivity|].
  unfold parse_query. by rewrite split_createQueryString, read_all_pieces.
Qed.

(** The form body of an action gives, under [startTime] and [endTime], the
    renderings in the zone the action selects. *)
Lemma form_times (X : Externals) (ev : CalendarEvent) (a : Action) (form : string) :
  getQueryString X ev a = Ok form →
  ∃ st et,
    render_time X (action_tz ev a) (startTime ev) = Ok st
    ∧ render_time X (action_tz ev a) (endTime ev) = Ok et
    ∧ form_value "startTime" form = Some st
    ∧ form_value "endTime" form = Some et.
Proof.
  unfold getQueryString.
  destruct (getQueryData X ev a) as [d|] eqn:Hd; [|done].
  cbn [mbind Result_bind]. intros Hform. apply (inj Ok) in Hform. subst form.
  destruct (getQueryData_times X ev a d Hd) as (st & et & Hst & Het & Hfs & Hfe).
  apply getQueryData_inv in Hd as (p & date & st' & et' & showId & _ & _ & ->).
  exists st, et. split_and!; [done|done| |].
  - unfold form_value. rewrite split_query_pairs.
    cbn in Hfs. injection Hfs as ->. reflexivity.
  - unfold form_value. rewrite split_query_pairs.
    cbn in Hfe. injection Hfe as ->. reflexivity.
Qed.

(** C7. [createMeeting] sends, in the body of its POST, the start and end
    times rendered in the organizer's zone; [updateMeeting] sends, in the
    body of its PUT, the same times rendered in UTC.  For an instant a Date
    can hold, the two rendered strings differ whenever the organizer's zone
    is at a non-zero offset at that instant, and so do the two bodies. *)
Theorem C7_time_zone_asymmetry (X : Externals) (credential : CredentialPayload)
    (ref : PartialReference) (ev : CalendarEvent) (w : World) (mid : string)
    (reqC reqU : Request) :
  meetingId ref = Some mid → mid ≠ "" →
  valid_instant (startTime ev) → valid_instant (endTime ev) →
  reqC ∈ requests (fst (run (createMeeting X credential ev) w)) →
  reqU ∈ requests (fst (run (updateMeeting X credential ref ev) w)) →
  ∃ formC formU offS offE,
    method reqC = POST ∧ body reqC = Some formC
    ∧ getQueryString X ev create = Ok formC
    ∧ method reqU = PUT ∧ body reqU = Some formU
    ∧ getQueryString X ev update = Ok formU
    ∧ zone_offset X (timeZone (organizer ev)) (startTime ev) = Some offS
    ∧ zone_offset X (timeZone (organizer ev)) (endTime ev) = Some offE
    ∧ form_value "startTime" formC
      = Some (substring_0_8 (toLocaleTimeString offS (startTime ev)))
    ∧ form_value "endTime" formC
      = Some (substring_0_8 (toLocaleTimeString offE (endTime ev)))
    ∧ form_value "startTime" formU
      = Some (substring_0_8 (toLocaleTimeString 0 (startTime ev)))
    ∧ form_value "endTime" formU
      = Some (substring_0_8 (toLocaleTimeString 0 (endTime ev)))
    ∧ (offS ≠ 0 → form_value "startTime" formC ≠ form_value "startTime" formU)
    ∧ (offE ≠ 0 → form_value "endTime" formC ≠ form_value "endTime" formU)
    ∧ (offS ≠ 0 ∨ offE ≠ 0 → formC ≠ formU).
Proof.
  intros Hmid Hne _ _ HC HU.
  rewrite createMeeting_run in HC.
  rewrite (updateMeeting_run X credential w ref ev mid Hmid Hne) in HU.
  destruct (getApiKey X credential) as [apiKey|]; [|by apply elem_of_nil in HC].
  destruct (getQueryString X ev create) as [formC|] eqn:HfC; [|by apply elem_of_nil in HC].
  destruct (getQueryString X ev update) as [formU|] eqn:HfU; [|by apply elem_of_nil in HU].
  cbn in HC, HU. apply list_elem_of_singleton in HC, HU. subst reqC reqU.
  destruct (form_times X ev create formC HfC) as (sc & ec & Hsc & Hec & HvsC & HveC).
  destruct (form_times X ev update formU HfU) as (su & eu & Hsu & Heu & HvsU & HveU).
  cbn [action_tz] in *.
  apply render_time_Ok in Hsc as (offS & HoS & ->).
  apply render_time_Ok in Hec as (offE & HoE & ->).
  apply render_time_Ok in Hsu as (o1 & Ho1 & ->).
  apply render_time_Ok in Heu as (o2 & Ho2 & ->).
  cbn in Ho1, Ho2. injection Ho1 as <-. injection Ho2 as <-.
  assert (HdS : offS ≠ 0 → form_value "startTime" formC ≠ form_value "startTime" formU).
  { intros Hoff. rewrite HvsC, HvsU. intros Heq.
    assert (minute_of_day offS (startTime ev) = minute_of_day 0 (startTime ev)) as Hm
      by (apply rendered_time_inj; congruence).
    revert Hm.
    by apply (minute_of_day_shift offS (startTime ev) (zone_offset_range _ _ _ _ HoS)). }
  assert (HdE : offE ≠ 0 → form_value "endTime" formC ≠ form_value "endTime" formU).
  { intros Hoff. rewrite HveC, HveU. intros Heq.
    assert (minute_of_day offE (endTime ev) = minute_of_day 0 (endTime ev)) as Hm
      by (apply rendered_time_inj; congruence).
    revert Hm.
    by apply (minute_of_day_shift offE (endTime ev) (zone_offset_range _ _ _ _ HoE)). }
  exists formC, formU, offS, offE. split_and!; try done.
  intros [Hoff|Hoff] ->; [by apply (HdS Hoff)|by apply (HdE Hoff)].
Qed.

Lemma C7_time_zone_asymmetry_witness :
  let ref := {| meetingId := Some "m1"; meetingPassword := ""; meetingUrl := "u" |} in
  let bodyC := "sessionTitle=Interview&date=2024-06-01&startTime=08%3A00%20PM&endTime=09%3A00%20PM&timeZone=Asia%2FKolkata&stage=o%40x.com&stage=a%40x.com&stage=b%40x.com&viewer=g%40x.com&showID=show-1" in
  let bodyU := "sessionTitle=Interview&date=2024-06-01&startTime=02%3A30%20PM&endTime=03%3A30%20PM&timeZone=Asia%2FKolkata&stage=o%40x.com&stage=a%40x.com&stage=b%40x.com&viewer=g%40x.com&showID=show-1" in
  let reqC := create_request (Some "sk_live") bodyC in
  let reqU := update_request (Some "sk_live") "m1" bodyU in
  ∃ formC formU offS offE,
    method reqC = POST ∧ body reqC = Some formC
    ∧ getQueryString Demo.X Demo.small create = Ok formC
    ∧ method reqU = PUT ∧ body reqU = Some formU
    ∧ getQueryString Demo.X Demo.small update = Ok formU
    ∧ zone_offset Demo.X (timeZone (organizer Demo.small)) (startTime Demo.small) = Some offS
    ∧ zone_offset Demo.X (timeZone (organizer Demo.small)) (endTime Demo.small) = Some offE
    ∧ form_value "startTime" formC
      = Some (substring_0_8 (toLocaleTimeString offS (startTime Demo.small)))
    ∧ form_value "endTime" formC
      = Some (substring_0_8 (toLocaleTimeString offE (endTime Demo.small)))
    ∧ form_value "startTime" formU
      = Some (substring_0_8 (toLocaleTimeString 0 (startTime Demo.small)))
    ∧ form_value "endTime" formU
      = Some (substring_0_8 (toLocaleTimeString 0 (endTime Demo.small)))
    ∧ (offS ≠ 0 → form_value "startTime" formC ≠ form_value "startTime" formU)
    ∧ (offE ≠ 0 → form_value "endTime" formC ≠ form_value "endTime" formU)
    ∧ (offS ≠ 0 ∨ offE ≠ 0 → formC ≠ formU).
Proof.
  intros ref bodyC bodyU reqC reqU.
  apply (C7_time_zone_asymmetry Demo.X Demo.credential ref Demo.small
           (Demo.world (Demo.replies 200 JNull)) "m1" reqC reqU).
  - reflexivity.
  - discriminate.
  - unfold valid_instant. simpl. lia.
  - unfold valid_instant. simpl. lia.
  - vm_compute. constructor.
  - vm_compute. constructor.
Defined.

Example times_sent :
  (form_value "startTime" <$> body (create_request None "startTime=08%3A00%20PM&endTime=x"),
   form_value "endTime" "a=1&endTime=03%3A30%20PM&endTime=later")
  = (Some (Some "08:00 PM"), Some "03:30 PM").
Proof. reflexivity. Qed.
